(** * Nim over UDP: the server's game core and the retry client's reply check

    A shallow embedding of the game logic of the Nim server
    (emptyBoard, nimSum, normalMove, bestMove, Play, CheckMove,
    GenerateBoard and one iteration of the receive loop of main) and of
    the retry client's isValidSuccessor, with the properties of the
    protocol specification stated and proved over it.

    Conventions.
    - A []uint8 board is a [list Z]; every operation that can leave the
      range of its Go type is written with its wrap-around ([uint8],
      [int8]).  That the piles of a board start inside the range of
      uint8 is the predicate [wf_board].
    - A slice that may be nil (the GameState field) is an [option]:
      [None] is nil.  len and range treat nil as the empty slice
      ([board_of]).
    - Go updates a board in place; here every function returns the
      updated board, and the board it was given is the value before the
      call.
    - A function that can stop the process returns a [result]. *)

From Stdlib Require Import ZArith Lia Bool.
From stdpp Require Import base option list gmap strings.

Local Open Scope Z_scope.

(** ** Machine integers *)

(** Conversion to uint8: the value modulo 2^8. *)
Definition uint8 (x : Z) : Z := x mod 256.

(** Conversion to int8: the value modulo 2^8, read as two's complement. *)
Definition int8 (x : Z) : Z :=
  let r := x mod 256 in if r <? 128 then r else r - 256.

Definition in_uint8 (x : Z) : Prop := 0 <= x < 256.
Definition in_int8 (x : Z) : Prop := -128 <= x < 128.

Definition wf_board (board : list Z) : Prop := Forall in_uint8 board.

(** ** Outcomes of a call *)

Inductive result (A : Type) : Type :=
  | Ok (a : A)          (* the call returns a *)
  | Exit (code : Z)     (* os.Exit(code), through CheckErr *)
  | Panic.              (* run-time panic: nil dereference, index out of range *)
Arguments Ok {A} a.
Arguments Exit {A} code.
Arguments Panic {A}.

(** ** Messages *)

Record StateMoveMessage : Type := mkMsg {
  GameState : option (list Z);   (* []uint8, None when nil *)
  MoveRow : Z;                   (* int8 *)
  MoveCount : Z                  (* int8 *)
}.

Definition board_of (g : option (list Z)) : list Z := default [] g.

Definition wf_msg (m : StateMoveMessage) : Prop :=
  wf_board (board_of (GameState m)) /\ in_int8 (MoveRow m) /\ in_int8 (MoveCount m).

(** ** Board functions of the server *)

(** emptyBoard: no pile holds a coin. *)
Fixpoint emptyBoard (board : list Z) : bool :=
  match board with
  | [] => true
  | v :: rest => if negb (v =? 0) then false else emptyBoard rest
  end.

(** nimSum: sum ^= v over the piles, from 0. *)
Definition nimSum (board : list Z) : Z :=
  fold_left (fun sum v => Z.lxor sum v) board 0.

(** normalMove: take one coin from the first pile that has one.
    [None] is the error return (nil, "no move to make"). *)
Definition normalMove (board : list Z) : option StateMoveMessage :=
  match list_find (fun v => 0 < v) board with
  | Some (i, v) =>
      Some (mkMsg (Some (<[i := uint8 (v - 1)]> board)) (int8 (Z.of_nat i)) 1)
  | None => None
  end.

(** bestMove: with a nonzero nim-sum, the first pile v with sum^v <= v is
    set to sum^v; otherwise (and if the search ends without a pile) a
    normal move, whose error ends the process through CheckErr. *)
Definition bestMove (board : list Z) : result StateMoveMessage :=
  let sum := nimSum board in
  let fallback :=
    match normalMove board with
    | Some m => Ok m
    | None => Exit 1
    end in
  if negb (sum =? 0) then
    match list_find (fun v => Z.lxor sum v <= v) board with
    | Some (i, v) =>
        let tmp := Z.lxor sum v in
        Ok (mkMsg (Some (<[i := tmp]> board)) (int8 (Z.of_nat i)) (int8 (uint8 (v - tmp))))
    | None => fallback
    end
  else fallback.

(** Play: the server's counter-move to the board of [move]. *)
Definition Play (move : StateMoveMessage) (mode : Z) : result StateMoveMessage :=
  let board := board_of (GameState move) in
  if emptyBoard board then Ok (mkMsg None (-2) (-2))
  else if mode =? 1 then bestMove board
  else
    match normalMove board with
    | Some m => Ok m
    | None => Panic   (* *nextMove with nextMove == nil *)
    end.

(** The test of CheckMove's loop body at index i: the pile is unchanged,
    or it is the declared row and holds the declared difference. *)
Definition row_ok (incmove : StateMoveMessage) (incboard lastboard : list Z) (i : nat) : bool :=
  let x := incboard !!! i in
  let y := lastboard !!! i in
  if x =? y then true
  else if (Z.of_nat i =? MoveRow incmove)
          && (0 <? MoveCount incmove)
          && (MoveCount incmove <=? int8 y)
          && (x =? uint8 (y - uint8 (MoveCount incmove)))
       then true
       else false.

(** CheckMove: is [incmove] a legal move from the board of [lastmove]? *)
Definition CheckMove (incmove lastmove : StateMoveMessage) : bool :=
  let lastboard := board_of (GameState lastmove) in
  let incboard := board_of (GameState incmove) in
  if negb (Nat.eqb (length lastboard) (length incboard))
     || (MoveRow incmove <? 0)
     || (Z.of_nat (length incboard) <=? MoveRow incmove)
  then false
  else forallb (row_ok incmove incboard lastboard) (seq 0 (length incboard)).

(** ** Board generation *)

(** math/rand is not part of the repository: a generator is a state, the
    state rand.Seed leaves, and rand.Intn as a function of the bound and
    the state. *)
Class Rand : Type := {
  RngState : Type;
  rand_Seed : Z -> RngState;
  rand_Intn : Z -> RngState -> Z * RngState
}.

(** What the documentation of rand.Intn promises: a value in [0, n). *)
Class RandSpec (R : Rand) : Prop :=
  rand_Intn_range : forall n s, 0 < n -> 0 <= (rand_Intn n s).1 < n.

Section Generation.
Context {R : Rand}.

(** The loop filling the board: numRows draws of Intn(10) + 1. *)
Fixpoint fill_rows (numRows : nat) (s : RngState) : list Z :=
  match numRows with
  | O => []
  | S k =>
      let '(numCoins, s') := rand_Intn 10 s in
      uint8 (numCoins + 1) :: fill_rows k s'
  end.

Definition GenerateBoard (seed : Z) : list Z :=
  let '(r, s) := rand_Intn 14 (rand_Seed seed) in
  let numRows := r + 3 in
  let board := fill_rows (Z.to_nat numRows) s in
  if nimSum board =? 0 then
    let last := Z.to_nat (numRows - 1) in
    let v := board !!! last in
    if v <? 10 then <[last := uint8 (v + 1)]> board
    else <[last := uint8 (v - 1)]> board
  else board.
End Generation.

(** ** One iteration of the server's receive loop *)

Section Loop.
Context {R : Rand}.

Record Sessions : Type := mkSessions {
  clientGames : gmap string StateMoveMessage;
  clientDifficulties : gmap string Z
}.

(** The GameStart test of main: board absent and row -1. *)
Definition isGameStart (m : StateMoveMessage) : bool :=
  match GameState m with
  | None => MoveRow m =? -1
  | Some _ => false
  end.

(** [serve raddrStr pkt tabs]: [pkt] is the datagram after Unmarshal
    ([None] when it fails).  The result is the session tables after the
    iteration and the reply written to raddr, if one is.  The two
    RecordAction calls decide nothing and are left out; Marshal of a
    StateMoveMessage is taken to succeed. *)
Definition serve (raddrStr : string) (pkt : option StateMoveMessage) (tabs : Sessions)
  : result (Sessions * option StateMoveMessage) :=
  match pkt with
  | None => Ok (tabs, None)
  | Some clientMove =>
      let saved (servMove : StateMoveMessage) (diffs : gmap string Z) :=
        Ok (mkSessions (<[raddrStr := servMove]> (clientGames tabs)) diffs, Some servMove) in
      if isGameStart clientMove then
        let seed := MoveCount clientMove in
        saved (mkMsg (Some (GenerateBoard seed)) (-1) seed)
              (<[raddrStr := Z.land seed 1]> (clientDifficulties tabs))
      else
        match clientGames tabs !! raddrStr with
        | None => Ok (tabs, None)
        | Some lastMove =>
            if negb (CheckMove clientMove lastMove) then
              saved lastMove (clientDifficulties tabs)
            else
              match Play clientMove (default 0 (clientDifficulties tabs !! raddrStr)) with
              | Ok servMove => saved servMove (clientDifficulties tabs)
              | Exit c => Exit c
              | Panic => Panic
              end
        end
  end.
End Loop.

(** ** The retry client (NewClient/Client.go) *)

Module Client.

(** The loop of isValidSuccessor from index idx on, over the piles of
    state not yet visited.  move.GameState[idx] past the end of the
    reply's board is the run-time panic. *)
Fixpoint successor_from (idx : nat) (state : list Z) (move : StateMoveMessage)
  : result bool :=
  match state with
  | [] => Ok true
  | elm :: rest =>
      if Z.of_nat idx =? MoveRow move then
        match board_of (GameState move) !! idx with
        | None => Panic
        | Some g =>
            if negb (uint8 (elm - uint8 (MoveCount move)) =? g) then Ok false
            else successor_from (S idx) rest move
        end
      else
        match board_of (GameState move) !! idx with
        | None => Panic
        | Some g =>
            if negb (elm =? g) then Ok false
            else successor_from (S idx) rest move
        end
  end.

Definition isValidSuccessor (state : list Z) (move : StateMoveMessage) : result bool :=
  successor_from 0 state move.

(** isWinState: no pile of the state holds a coin. *)
Fixpoint isWinState (state : list Z) : bool :=
  match state with
  | [] => true
  | elm :: rest => if negb (elm =? 0) then false else isWinState rest
  end.

(** decideMove: the nim-sum of the state is folded as in the server.  With
    a nonzero nim-sum the first pile with elm >= elm^nimSum is reduced by
    elm - (elm^nimSum); with a zero nim-sum the first pile that is not 0
    is reduced by 1; with no such pile the process exits with code 1.
    The move is made on a copy of the state. *)
Definition decideMove (state : list Z) : result StateMoveMessage :=
  let nimSum := fold_left (fun nimSum elm => Z.lxor nimSum elm) state 0 in
  if negb (nimSum =? 0) then
    match list_find (fun elm => elm >= Z.lxor elm nimSum) state with
    | Some (idx, elm) =>
        let reduceBy := uint8 (elm - Z.lxor elm nimSum) in
        Ok (mkMsg (Some (<[idx := uint8 (elm - reduceBy)]> state))
                  (int8 (Z.of_nat idx)) (int8 reduceBy))
    | None => Exit 1
    end
  else
    match list_find (fun elm => elm <> 0) state with
    | Some (idx, elm) =>
        Ok (mkMsg (Some (<[idx := uint8 (elm - 1)]> state)) (int8 (Z.of_nat idx)) 1)
    | None => Exit 1
    end.

(** The builtin copy(dst, src): the first min(len(dst), len(src)) elements
    of dst are overwritten with those of src. *)
Definition copy (dst src : list Z) : list Z :=
  take (length dst) src ++ drop (length src) dst.

(** What one pass of the inner loop of main comes to, once the move has
    been sent. *)
Inductive outcome : Type :=
  | Resend                        (* continue: the same move is sent again *)
  | Won (winner : string)         (* GameComplete{winner} and os.Exit(0) *)
  | Adopted (state : list Z).     (* break, then copy(state, recvMove.GameState) *)

(** One pass of the inner loop and the lines after its break.  [state] is
    the client's board after its own move; [recvMove] is what recvAndTrace
    decoded, [None] for a timeout or a corrupt packet. *)
Definition exchange (state : list Z) (recvMove : option StateMoveMessage) : result outcome :=
  if isWinState state then Ok (Won "client")
  else
    match recvMove with
    | None => Ok Resend
    | Some recvMove =>
        match isValidSuccessor state recvMove with
        | Ok false => Ok Resend
        | Ok true =>
            let state' := copy state (board_of (GameState recvMove)) in
            if isWinState state' then Ok (Won "server") else Ok (Adopted state')
        | Exit c => Exit c
        | Panic => Panic
        end
    end.

(** The head of the outer loop: the move to send and the state after
    copy(state, sendMove.GameState). *)
Definition turn (state : list Z) : result (StateMoveMessage * list Z) :=
  match decideMove state with
  | Ok sendMove => Ok (sendMove, copy state (board_of (GameState sendMove)))
  | Exit c => Exit c
  | Panic => Panic
  end.

End Client.

(** ** The first client (client.go) *)

Module ClientGo.

(** nimsum: despite its name, the test that every pile is 0, by counting
    the piles that are. *)
Definition nimsum (move : list Z) : bool :=
  let count :=
    fold_left (fun count v => if v =? 0 then (count + 1)%nat else count) move 0%nat in
  if Nat.eqb count (length move) then true else false.

Definition normalmove (board : list Z) : option StateMoveMessage :=
  match list_find (fun v => 0 < v) board with
  | Some (i, v) =>
      Some (mkMsg (Some (<[i := uint8 (v - 1)]> board)) (int8 (Z.of_nat i)) 1)
  | None => None
  end.

(** play: the error of normalmove is printed and the nil move is then
    dereferenced. *)
Definition play (move : StateMoveMessage) : result StateMoveMessage :=
  match normalmove (board_of (GameState move)) with
  | Some nextMove => Ok nextMove
  | None => Panic
  end.

(** What the loop of main does with a decoded server message. *)
Inductive reaction : Type :=
  | Send (m : StateMoveMessage)   (* the message is written to the server *)
  | Silent                        (* nothing is sent; the loop reads again *)
  | ServerWins.                   (* GameComplete{Server}; the loop ends *)

Definition react (seed : Z) (ServerMove : StateMoveMessage) : result reaction :=
  match GameState ServerMove with
  | None =>
      if MoveRow ServerMove =? -1 then Ok (Send (mkMsg None (-1) seed))
      else Ok Silent
  | Some board =>
      if 0 <? MoveCount ServerMove then
        if nimsum board then Ok ServerWins
        else
          match play ServerMove with
          | Ok newMove => Ok (Send newMove)
          | Exit c => Exit c
          | Panic => Panic
          end
      else Ok Silent
  end.

End ClientGo.

(** ** The second client (newClient.go) *)

Module NewClientGo.

Definition allzeros (arr : list Z) : bool :=
  let count :=
    fold_left (fun count v => if v =? 0 then (count + 1)%nat else count) arr 0%nat in
  if Nat.eqb count (length arr) then true else false.

Definition normal (board : list Z) : option StateMoveMessage :=
  match list_find (fun v => 0 < v) board with
  | Some (i, v) =>
      Some (mkMsg (Some (<[i := uint8 (v - 1)]> board)) (int8 (Z.of_nat i)) 1)
  | None => None
  end.

Definition play (move : list Z) : result StateMoveMessage :=
  match normal move with
  | Some netxMove => Ok netxMove
  | None => Panic
  end.

Definition react (seed : Z) (ServerMove : StateMoveMessage) : result ClientGo.reaction :=
  match GameState ServerMove with
  | None =>
      if MoveRow ServerMove =? -1 then Ok (ClientGo.Send (mkMsg None (-1) seed))
      else Ok ClientGo.Silent
  | Some board =>
      if 0 <? MoveCount ServerMove then
        if allzeros board then Ok ClientGo.ServerWins
        else
          match play board with
          | Ok newMove => Ok (ClientGo.Send newMove)
          | Exit c => Exit c
          | Panic => Panic
          end
      else Ok ClientGo.Silent
  end.

End NewClientGo.

(** ** The server's loop over a sequence of datagrams *)

Section Run.
Context {R : Rand}.

(** The for loop of main over the datagrams read, each with the address
    it came from; main starts from two empty maps. *)
Fixpoint run (pkts : list (string * option StateMoveMessage)) (tabs : Sessions)
  : result Sessions :=
  match pkts with
  | [] => Ok tabs
  | (raddrStr, pkt) :: rest =>
      match serve raddrStr pkt tabs with
      | Ok (tabs', _) => run rest tabs'
      | Exit c => Exit c
      | Panic => Panic
      end
  end.

Definition no_sessions : Sessions := mkSessions ∅ ∅.
End Run.

(** ** A generator for the worked examples *)

(** The state is a counter: Intn(n) returns the counter modulo n and
    advances it.  It stands for no particular math/rand; it keeps the
    range that Intn promises. *)
Definition counter_rand : Rand :=
  {| RngState := Z;
     rand_Seed := fun seed => seed;
     rand_Intn := fun n s => (s mod n, s + 1) |}.

(** ** Predicates of the statements *)

(** bestMove's test at pile i of a board: sum ^ v <= v. *)
Definition reduces (board : list Z) (i : nat) : bool :=
  match board !! i with
  | Some v => Z.lxor (nimSum board) v <=? v
  | None => false
  end.

(** The test isValidSuccessor makes of the client's pile elm against the
    reply's pile g at index idx. *)
Definition pile_passes (move : StateMoveMessage) (idx : nat) (elm g : Z) : bool :=
  if Z.of_nat idx =? MoveRow move
  then uint8 (elm - uint8 (MoveCount move)) =? g
  else elm =? g.

(** The coins on a board. *)
Definition coins (board : list Z) : Z := foldr Z.add 0 board.

(** The boards of a game: the shape GenerateBoard gives, with piles that
    may have gone down to 0. *)
Definition game_board (board : list Z) : Prop :=
  (3 <= length board <= 16)%nat /\ Forall (fun v => 0 <= v <= 10) board.

(** A stored state: int8 fields, and a game board unless the board is
    absent. *)
Definition session_ok (m : StateMoveMessage) : Prop :=
  in_int8 (MoveRow m) /\ in_int8 (MoveCount m) /\
  match GameState m with
  | None => True
  | Some board => game_board board
  end.

(** The session tables: every stored state is a [session_ok] one, every
    difficulty is 0 or 1, and every client with a stored state has a
    difficulty. *)
Definition tables_ok (tabs : Sessions) : Prop :=
  (forall a m, clientGames tabs !! a = Some m -> session_ok m) /\
  (forall a d, clientDifficulties tabs !! a = Some d -> d = 0 \/ d = 1) /\
  (forall a, is_Some (clientGames tabs !! a) -> is_Some (clientDifficulties tabs !! a)).

(** ** Sanity checks on concrete boards *)

Example nimSum_1_9_1_5 : nimSum [1; 9; 1; 5] = 12.
Proof. reflexivity. Qed.

Example normalMove_1_9_1_5 :
  normalMove [1; 9; 1; 5] = Some (mkMsg (Some [0; 9; 1; 5]) 0 1).
Proof. reflexivity. Qed.

Example bestMove_1_9_1_5 :
  bestMove [1; 9; 1; 5] = Ok (mkMsg (Some [1; 5; 1; 5]) 1 4).
Proof. vm_compute. reflexivity. Qed.

Example CheckMove_accepts :
  CheckMove (mkMsg (Some [1; 5; 1; 5]) 1 4) (mkMsg (Some [1; 9; 1; 5]) (-1) 7) = true.
Proof. reflexivity. Qed.

(** ** Machine integers: conversions that do not wrap *)

Lemma uint8_small x : in_uint8 x -> uint8 x = x.
Proof. unfold in_uint8, uint8. intros H. apply Z.mod_small. lia. Qed.

Lemma uint8_range x : in_uint8 (uint8 x).
Proof. unfold in_uint8, uint8. apply Z.mod_pos_bound. lia. Qed.

Lemma int8_small x : 0 <= x < 128 -> int8 x = x.
Proof.
  intros H. unfold int8. rewrite Z.mod_small by lia.
  destruct (Z.ltb_spec x 128); lia.
Qed.

Lemma int8_range x : in_int8 (int8 x).
Proof.
  unfold in_int8, int8.
  pose proof (Z.mod_pos_bound x 256 ltac:(lia)) as Hb.
  destruct (Z.ltb_spec (x mod 256) 128); lia.
Qed.

(** A positive int8 obtained from a uint8 is the uint8 itself. *)
Lemma int8_pos_inv y c : in_uint8 y -> 0 < c -> c <= int8 y -> int8 y = y /\ y < 128.
Proof.
  unfold in_uint8, int8. intros Hy Hc.
  rewrite Z.mod_small by lia.
  destruct (Z.ltb_spec y 128); lia.
Qed.

(** ** The nim-sum *)

Lemma fold_lxor_acc (l : list Z) (a : Z) :
  fold_left (fun sum v => Z.lxor sum v) l a = Z.lxor a (nimSum l).
Proof.
  unfold nimSum. revert a.
  induction l as [|v l IH]; intros a; simpl.
  - now rewrite Z.lxor_0_r.
  - rewrite (IH (Z.lxor a v)), Z.lxor_0_l, (IH v). apply Z.lxor_assoc.
Qed.

Lemma nimSum_cons (v : Z) (l : list Z) : nimSum (v :: l) = Z.lxor v (nimSum l).
Proof. unfold nimSum at 1. simpl. rewrite Z.lxor_0_l. apply fold_lxor_acc. Qed.

Lemma lxor_uint8 a b : in_uint8 a -> in_uint8 b -> in_uint8 (Z.lxor a b).
Proof.
  unfold in_uint8. intros Ha Hb. split.
  - apply Z.lxor_nonneg. lia.
  - destruct (Z.eq_dec (Z.lxor a b) 0) as [->|Hne]; [lia|].
    assert (0 < Z.lxor a b) as Hpos.
    { assert (0 <= Z.lxor a b) by (apply Z.lxor_nonneg; lia). lia. }
    apply (Z.log2_lt_pow2 _ 8 Hpos).
    pose proof (Z.log2_lxor a b ltac:(lia) ltac:(lia)) as Hl.
    assert (Z.log2 a < 8) by (destruct (Z.eq_dec a 0) as [->|]; [simpl; lia| apply Z.log2_lt_pow2; lia]).
    assert (Z.log2 b < 8) by (destruct (Z.eq_dec b 0) as [->|]; [simpl; lia| apply Z.log2_lt_pow2; lia]).
    lia.
Qed.

Lemma nimSum_uint8 (l : list Z) : wf_board l -> in_uint8 (nimSum l).
Proof.
  induction 1 as [|v l Hv _ IH].
  - unfold in_uint8, nimSum. simpl. lia.
  - rewrite nimSum_cons. now apply lxor_uint8.
Qed.

(** Equations between xor expressions, bit by bit. *)
Ltac xor_bits :=
  apply Z.bits_inj'; intros ? _; rewrite ?Z.lxor_spec, ?Z.bits_0;
  repeat match goal with
         | |- context [Z.testbit ?a ?n] => destruct (Z.testbit a n)
         end;
  reflexivity.

(** Writing w over a pile v changes the nim-sum by v ^ w. *)
Lemma nimSum_insert (l : list Z) (i : nat) (v w : Z) :
  l !! i = Some v -> nimSum (<[i := w]> l) = Z.lxor (nimSum l) (Z.lxor v w).
Proof.
  revert i. induction l as [|x l IH]; intros [|i] Hi; simpl in *; try discriminate.
  - injection Hi as ->. rewrite !nimSum_cons. xor_bits.
  - rewrite !nimSum_cons, (IH _ Hi). xor_bits.
Qed.

(** ** The pile the optimal strategy reduces *)

Lemma lxor_1_odd q : 0 <= q -> Z.odd q = true -> Z.lxor 1 q = q - 1.
Proof.
  intros Hq Hodd. destruct q as [|p|p]; try discriminate; [|lia].
  destruct p; try discriminate; reflexivity.
Qed.

(** A pile that has the top bit of s set becomes smaller under xor with s. *)
Lemma lxor_top_bit_lt s v :
  0 < s -> 0 <= v -> Z.testbit v (Z.log2 s) = true -> Z.lxor s v < v.
Proof.
  intros Hs Hv Hbit.
  set (d := Z.log2 s) in *.
  assert (0 <= d) as Hd by apply Z.log2_nonneg.
  destruct (Z.log2_spec s Hs) as [Hlo Hhi]. fold d in Hlo, Hhi.
  assert (0 < 2 ^ d) as Hpow by (apply Z.pow_pos_nonneg; lia).
  assert (s / 2 ^ d = 1) as Hsd.
  { symmetry. apply (Z.div_unique s (2 ^ d) 1 (s - 2 ^ d)).
    - left. rewrite Z.pow_succ_r in Hhi by lia. lia.
    - lia. }
  assert (Z.odd (v / 2 ^ d) = true) as Hodd.
  { rewrite <- Z.shiftr_div_pow2 by lia.
    rewrite <- Z.bit0_odd, Z.shiftr_spec by lia. now rewrite Z.add_0_l. }
  assert (Z.lxor s v / 2 ^ d = v / 2 ^ d - 1) as Hq.
  { rewrite <- !Z.shiftr_div_pow2 by lia. rewrite Z.shiftr_lxor.
    rewrite !Z.shiftr_div_pow2 by lia. rewrite Hsd.
    apply lxor_1_odd; [apply Z.div_pos; lia | exact Hodd]. }
  destruct (Z.lt_ge_cases (Z.lxor s v) v) as [Hlt|Hge]; [exact Hlt|].
  pose proof (Z.div_le_mono v (Z.lxor s v) (2 ^ d) Hpow Hge). lia.
Qed.

Lemma nimSum_bit_witness (l : list Z) (d : Z) :
  Z.testbit (nimSum l) d = true -> exists v, v ∈ l /\ Z.testbit v d = true.
Proof.
  induction l as [|x l IH]; intros H.
  - unfold nimSum in H. simpl in H. now rewrite Z.testbit_0_l in H.
  - rewrite nimSum_cons, Z.lxor_spec in H.
    destruct (Z.testbit x d) eqn:Hx.
    + exists x. split; [left | exact Hx].
    + simpl in H. destruct (IH H) as (v & Hv & Hb).
      exists v. split; [now right | exact Hb].
Qed.

(** With a nonzero nim-sum some pile passes bestMove's test. *)
Lemma reducing_pile_exists (board : list Z) :
  wf_board board -> nimSum board <> 0 ->
  exists v, v ∈ board /\ Z.lxor (nimSum board) v < v.
Proof.
  intros Hwf Hne.
  pose proof (nimSum_uint8 _ Hwf) as Hs. unfold in_uint8 in Hs.
  assert (0 < nimSum board) as Hpos by lia.
  destruct (nimSum_bit_witness board (Z.log2 (nimSum board))) as (v & Hv & Hb).
  { apply Z.bit_log2. exact Hpos. }
  exists v. split; [exact Hv|].
  apply lxor_top_bit_lt; [exact Hpos| |exact Hb].
  unfold wf_board in Hwf. rewrite Forall_forall in Hwf.
  destruct (Hwf v Hv). lia.
Qed.

(** ** bestMove on a board with nonzero nim-sum *)

Lemma reduces_true (board : list Z) (i : nat) :
  reduces board i = true <->
  exists v, board !! i = Some v /\ Z.lxor (nimSum board) v <= v.
Proof.
  unfold reduces. split.
  - destruct (board !! i) as [v|]; [|discriminate].
    intros H. exists v. split; [reflexivity | now apply Z.leb_le].
  - intros (v & -> & H). now apply Z.leb_le.
Qed.

(** The search of bestMove succeeds, at the first pile passing the test,
    and the move returned is built from that pile. *)
Lemma bestMove_found (board : list Z) :
  wf_board board -> nimSum board <> 0 ->
  exists i v,
    board !! i = Some v /\
    Z.lxor (nimSum board) v < v /\
    (forall j, (j < i)%nat -> reduces board j = false) /\
    bestMove board =
      Ok (mkMsg (Some (<[i := Z.lxor (nimSum board) v]> board))
                (int8 (Z.of_nat i))
                (int8 (uint8 (v - Z.lxor (nimSum board) v)))).
Proof.
  intros Hwf Hne.
  destruct (reducing_pile_exists board Hwf Hne) as (w & Hw & Hlt).
  destruct (list_find_elem_of (fun v => Z.lxor (nimSum board) v <= v) board w Hw)
    as [[i v] Hfind]; [lia|].
  pose proof Hfind as Hspec. apply list_find_Some in Hspec.
  destruct Hspec as (Hi & Hle & Hfirst).
  exists i, v. split; [exact Hi|]. split; [|split].
  - destruct (Z.eq_dec (Z.lxor (nimSum board) v) v) as [Heq|]; [|lia].
    exfalso. apply Hne.
    assert (nimSum board = Z.lxor (Z.lxor (nimSum board) v) v) as -> by xor_bits.
    rewrite Heq. apply Z.lxor_nilpotent.
  - intros j Hj. unfold reduces.
    destruct (board !! j) as [y|] eqn:Hy; [|reflexivity].
    apply Z.leb_gt. specialize (Hfirst j y Hy Hj). lia.
  - unfold bestMove. cbv zeta.
    destruct (Z.eqb_spec (nimSum board) 0) as [|_]; [contradiction|].
    simpl negb. cbv iota. now rewrite Hfind.
Qed.

Ltac wf_board_tac :=
  repeat first [ apply List.Forall_nil
               | apply List.Forall_cons; [unfold in_uint8; lia|] ].

(** The boards of a game are inside the range of the int8 fields of a
    message: well-typed, at most 128 piles, no pile above 127. *)
Lemma game_board_fits (board : list Z) :
  game_board board ->
  wf_board board /\ (length board <= 128)%nat /\ Forall (fun v => v < 128) board.
Proof.
  intros (Hlen & Hall). split; [|split; [lia|]].
  - eapply Forall_impl; [exact Hall|]. intros v Hv. unfold in_uint8. simpl in Hv. lia.
  - eapply Forall_impl; [exact Hall|]. intros v Hv. simpl in Hv. lia.
Qed.

(** On any well-typed board with nonzero nim-sum, whatever its size: the
    pile found, the board returned and the fields as bestMove converts
    them. *)
Lemma bestMove_zeroes_nimSum_any_size (board : list Z) :
  wf_board board -> nimSum board <> 0 ->
  exists i v m,
    bestMove board = Ok m /\
    board !! i = Some v /\
    Z.lxor (nimSum board) v < v /\
    (forall j, (j < i)%nat -> reduces board j = false) /\
    GameState m = Some (<[i := Z.lxor (nimSum board) v]> board) /\
    MoveRow m = int8 (Z.of_nat i) /\
    MoveCount m = int8 (v - Z.lxor (nimSum board) v) /\
    nimSum (board_of (GameState m)) = 0.
Proof.
  intros Hwf Hne.
  destruct (bestMove_found board Hwf Hne) as (i & v & Hi & Hlt & Hfirst & Hbest).
  pose proof (nimSum_uint8 _ Hwf) as HS.
  assert (in_uint8 v) as Hv.
  { unfold wf_board in Hwf. rewrite Forall_lookup in Hwf. exact (Hwf i v Hi). }
  pose proof (lxor_uint8 _ _ HS Hv) as Htmp.
  assert (uint8 (v - Z.lxor (nimSum board) v) = v - Z.lxor (nimSum board) v) as Hu.
  { apply uint8_small. unfold in_uint8 in *. lia. }
  eexists i, v, _. split; [exact Hbest|]. simpl.
  split; [exact Hi|]. split; [exact Hlt|].
  split; [exact Hfirst|]. split; [reflexivity|]. split; [reflexivity|].
  rewrite Hu. split; [reflexivity|].
  rewrite (nimSum_insert board i v _ Hi). xor_bits.
Qed.

(** C1.  For every board whose nim-sum S is nonzero, bestMove finds a pile
    i with pile[i] XOR S <= pile[i] (the first one), sets that pile's
    count to pile[i] XOR S, reporting row i and amount equal to the old
    count minus the new count, and the nim-sum of the returned board is
    exactly 0.  The boards are those a message can describe through its
    int8 row and amount: well-typed, at most 128 piles, no pile above
    127; every board of a game is one ([game_board_fits]). *)
Theorem bestMove_zeroes_nimSum (board : list Z) :
  wf_board board -> (length board <= 128)%nat -> Forall (fun v => v < 128) board ->
  nimSum board <> 0 ->
  exists i v m,
    bestMove board = Ok m /\
    board !! i = Some v /\
    reduces board i = true /\
    (forall j, (j < i)%nat -> reduces board j = false) /\
    GameState m = Some (<[i := Z.lxor (nimSum board) v]> board) /\
    MoveRow m = Z.of_nat i /\
    MoveCount m = v - Z.lxor (nimSum board) v /\
    nimSum (board_of (GameState m)) = 0.
Proof.
  intros Hwf Hlen Hsmall Hne.
  destruct (bestMove_zeroes_nimSum_any_size board Hwf Hne)
    as (i & v & m & Hbest & Hi & Hlt & Hfirst & Hboard & Hrow & Hcount & Hzero).
  pose proof (lookup_lt_Some _ _ _ Hi) as Hidx.
  rewrite Forall_lookup in Hsmall. pose proof (Hsmall i v Hi) as Hv. simpl in Hv.
  assert (0 <= Z.lxor (nimSum board) v) as Hnonneg.
  { pose proof (nimSum_uint8 _ Hwf) as HS.
    unfold wf_board in Hwf. rewrite Forall_lookup in Hwf.
    pose proof (Hwf i v Hi) as Hv8. apply Z.lxor_nonneg. unfold in_uint8 in *. lia. }
  exists i, v, m. split; [exact Hbest|]. split; [exact Hi|].
  split; [apply reduces_true; exists v; split; [exact Hi | lia]|].
  split; [exact Hfirst|]. split; [exact Hboard|].
  split; [rewrite Hrow; apply int8_small; lia|].
  split; [rewrite Hcount; apply int8_small; lia | exact Hzero].
Qed.

Lemma bestMove_zeroes_nimSum_witness :
  wf_board [1; 9; 1; 5] /\ le (length [1; 9; 1; 5]) 128 /\
  Forall (fun v => v < 128) [1; 9; 1; 5] /\ nimSum [1; 9; 1; 5] <> 0 /\
  exists i v m,
    bestMove [1; 9; 1; 5] = Ok m /\
    [1; 9; 1; 5] !! i = Some v /\
    reduces [1; 9; 1; 5] i = true /\
    (forall j, (j < i)%nat -> reduces [1; 9; 1; 5] j = false) /\
    GameState m = Some (<[i := Z.lxor (nimSum [1; 9; 1; 5]) v]> [1; 9; 1; 5]) /\
    MoveRow m = Z.of_nat i /\
    MoveCount m = v - Z.lxor (nimSum [1; 9; 1; 5]) v /\
    nimSum (board_of (GameState m)) = 0.
Proof.
  assert (Forall (fun v => v < 128) [1; 9; 1; 5]) as Hsmall
    by (repeat first [apply List.Forall_nil | apply List.Forall_cons; [lia|]]).
  split; [wf_board_tac|]. split; [simpl; lia|]. split; [exact Hsmall|].
  split; [vm_compute; discriminate|].
  apply (bestMove_zeroes_nimSum [1; 9; 1; 5]);
    [wf_board_tac | simpl; lia | exact Hsmall | vm_compute; discriminate].
Defined.

(** C8 (amended).  For every board whose nim-sum S is nonzero, at least
    one pile index i satisfies pile[i] XOR S <= pile[i], so the linear
    search of bestMove never fails to find a candidate: it stops at the
    first such index, and bestMove returns the move on that pile. *)
Theorem reducing_pile_first (board : list Z) :
  wf_board board -> nimSum board <> 0 ->
  exists i,
    reduces board i = true /\
    (forall j, (j < i)%nat -> reduces board j = false) /\
    exists m, bestMove board = Ok m /\ MoveRow m = int8 (Z.of_nat i).
Proof.
  intros Hwf Hne.
  destruct (bestMove_found board Hwf Hne) as (i & v & Hi & Hlt & Hfirst & Hbest).
  exists i. split; [apply reduces_true; exists v; split; [exact Hi | lia]|].
  split; [exact Hfirst|].
  eexists. split; [exact Hbest | reflexivity].
Qed.

Lemma reducing_pile_first_witness :
  wf_board [1; 1; 1] /\ nimSum [1; 1; 1] <> 0 /\
  exists i,
    reduces [1; 1; 1] i = true /\
    (forall j, (j < i)%nat -> reduces [1; 1; 1] j = false) /\
    exists m, bestMove [1; 1; 1] = Ok m /\ MoveRow m = int8 (Z.of_nat i).
Proof.
  split; [wf_board_tac|]. split; [vm_compute; discriminate|].
  apply (reducing_pile_first [1; 1; 1]); [wf_board_tac | vm_compute; discriminate].
Defined.

(** C8 as stated fails on the board [1; 1; 1]: its nim-sum is 1 and each of
    the three piles passes the test, so no index is the only one. *)
Lemma reducing_pile_not_unique :
  wf_board [1; 1; 1] /\ nimSum [1; 1; 1] <> 0 /\
  ~ (exists i, reduces [1; 1; 1] i = true /\
               forall j, reduces [1; 1; 1] j = true -> j = i).
Proof.
  split; [wf_board_tac|]. split; [vm_compute; discriminate|].
  intros (i & _ & Huniq).
  assert (0%nat = i) as H0 by (apply Huniq; vm_compute; reflexivity).
  assert (1%nat = i) as H1 by (apply Huniq; vm_compute; reflexivity).
  congruence.
Qed.

(** ** CheckMove, as a property of the two boards *)

(** The guards and the loop of CheckMove. *)
Lemma CheckMove_true (incmove lastmove : StateMoveMessage) :
  CheckMove incmove lastmove = true <->
  length (board_of (GameState lastmove)) = length (board_of (GameState incmove)) /\
  0 <= MoveRow incmove < Z.of_nat (length (board_of (GameState incmove))) /\
  forall i, (i < length (board_of (GameState incmove)))%nat ->
    row_ok incmove (board_of (GameState incmove)) (board_of (GameState lastmove)) i = true.
Proof.
  unfold CheckMove. cbv zeta.
  destruct (Nat.eqb_spec (length (board_of (GameState lastmove)))
                         (length (board_of (GameState incmove)))) as [Hlen|Hlen];
    destruct (Z.ltb_spec (MoveRow incmove) 0) as [Hneg|Hneg];
    destruct (Z.leb_spec (Z.of_nat (length (board_of (GameState incmove)))) (MoveRow incmove))
      as [Hbig|Hbig];
    simpl; try (split; [discriminate | intros (? & ? & _); lia]).
  rewrite forallb_forall. split.
  - intros H. split; [exact Hlen|]. split; [lia|].
    intros i Hi. apply H. apply in_seq. lia.
  - intros (_ & _ & H) i Hi. apply H. apply in_seq in Hi. lia.
Qed.

(** The loop body, when the previous pile and the amount are in the range
    of their types: the conversion int8(lastboard[i]) admits the declared
    row only when the previous count is below 128. *)
Lemma row_ok_true (incmove : StateMoveMessage) (incboard lastboard : list Z) (i : nat) :
  in_uint8 (lastboard !!! i) -> in_int8 (MoveCount incmove) ->
  row_ok incmove incboard lastboard i = true <->
  incboard !!! i = lastboard !!! i \/
  (Z.of_nat i = MoveRow incmove /\
   0 < MoveCount incmove <= lastboard !!! i /\
   lastboard !!! i < 128 /\
   incboard !!! i = lastboard !!! i - MoveCount incmove).
Proof.
  intros Hy Hc. unfold row_ok. cbv zeta.
  set (x := incboard !!! i). set (y := lastboard !!! i) in *.
  set (c := MoveCount incmove) in *.
  destruct (Z.eqb_spec x y) as [Hxy|Hxy]; [split; [now left | reflexivity]|].
  destruct (Z.eqb_spec (Z.of_nat i) (MoveRow incmove)) as [Hi|Hi];
    destruct (Z.ltb_spec 0 c) as [Hpos|Hpos];
    destruct (Z.leb_spec c (int8 y)) as [Hle|Hle];
    destruct (Z.eqb_spec x (uint8 (y - uint8 c))) as [Hx|Hx];
    simpl; split; try discriminate; try reflexivity;
    try (intros [?|(? & ? & ? & ?)]; try contradiction; try lia).
  - intros _. right.
    destruct (int8_pos_inv y c Hy Hpos Hle) as [Hy8 Hsmall].
    rewrite Hy8 in Hle. unfold in_int8 in Hc.
    rewrite (uint8_small c) in Hx by (unfold in_uint8; lia).
    rewrite uint8_small in Hx by (unfold in_uint8 in *; lia).
    repeat split; try assumption; lia.
  - exfalso. apply Hx. unfold in_int8 in Hc. unfold in_uint8 in Hy.
    rewrite (uint8_small c) by (unfold in_uint8; lia).
    rewrite uint8_small by (unfold in_uint8; lia). assumption.
  - rewrite int8_small in Hle by (unfold in_uint8 in Hy; lia). lia.
  - rewrite int8_small in Hle by (unfold in_uint8 in Hy; lia). lia.
Qed.

Lemma lookup_total_of_lookup (l : list Z) (i : nat) (x : Z) :
  l !! i = Some x -> l !!! i = x.
Proof. intros H. now apply list_lookup_total_correct. Qed.

Lemma wf_board_lookup_total (l : list Z) (i : nat) :
  wf_board l -> (i < length l)%nat -> in_uint8 (l !!! i).
Proof.
  intros Hwf Hi. destruct (lookup_lt_is_Some_2 l i Hi) as [x Hx].
  rewrite (lookup_total_of_lookup _ _ _ Hx).
  unfold wf_board in Hwf. rewrite Forall_lookup in Hwf. exact (Hwf i x Hx).
Qed.

(** CheckMove accepts exactly the moves that keep the length, name a row
    of the board, and change at most that row, by the declared positive
    amount, from a count below 128. *)
Lemma CheckMove_spec (incmove lastmove : StateMoveMessage) :
  wf_board (board_of (GameState lastmove)) -> in_int8 (MoveCount incmove) ->
  CheckMove incmove lastmove = true <->
  length (board_of (GameState lastmove)) = length (board_of (GameState incmove)) /\
  0 <= MoveRow incmove < Z.of_nat (length (board_of (GameState incmove))) /\
  forall i x y,
    board_of (GameState incmove) !! i = Some x ->
    board_of (GameState lastmove) !! i = Some y ->
    x = y \/
    (Z.of_nat i = MoveRow incmove /\ 0 < MoveCount incmove <= y /\ y < 128 /\
     x = y - MoveCount incmove).
Proof.
  intros Hwf Hc. rewrite CheckMove_true. split.
  - intros (Hlen & Hrow & Hall). split; [exact Hlen|]. split; [exact Hrow|].
    intros i x y Hx Hy.
    assert (i < length (board_of (GameState incmove)))%nat as Hi
      by (apply lookup_lt_is_Some; eauto).
    specialize (Hall i Hi). apply row_ok_true in Hall; [|
      apply wf_board_lookup_total; [exact Hwf | lia] | exact Hc].
    rewrite (lookup_total_of_lookup _ _ _ Hx), (lookup_total_of_lookup _ _ _ Hy) in Hall.
    exact Hall.
  - intros (Hlen & Hrow & Hall). split; [exact Hlen|]. split; [exact Hrow|].
    intros i Hi.
    destruct (lookup_lt_is_Some_2 (board_of (GameState incmove)) i Hi) as [x Hx].
    destruct (lookup_lt_is_Some_2 (board_of (GameState lastmove)) i ltac:(lia)) as [y Hy].
    apply row_ok_true; [apply wf_board_lookup_total; [exact Hwf | lia] | exact Hc |].
    rewrite (lookup_total_of_lookup _ _ _ Hx), (lookup_total_of_lookup _ _ _ Hy).
    exact (Hall i x y Hx Hy).
Qed.

(** C2.  CheckMove(proposed, previous) returns false whenever the two
    boards have different lengths, or the declared pile index is outside
    [0, len), or more than one pile's count differs between proposed and
    previous, or a differing pile's new count is not exactly
    previous[pile] - amount at the declared pile, for the declared amount
    with 0 < amount <= previous[pile]. *)
Theorem CheckMove_rejects (proposed previous : StateMoveMessage) :
  wf_board (board_of (GameState previous)) ->
  in_int8 (MoveCount proposed) ->
  length (board_of (GameState proposed)) <> length (board_of (GameState previous))
  \/ ~ (0 <= MoveRow proposed < Z.of_nat (length (board_of (GameState proposed))))
  \/ (exists i j x y x' y',
        i <> j /\
        board_of (GameState proposed) !! i = Some x /\
        board_of (GameState previous) !! i = Some y /\ x <> y /\
        board_of (GameState proposed) !! j = Some x' /\
        board_of (GameState previous) !! j = Some y' /\ x' <> y')
  \/ (exists i x y,
        board_of (GameState proposed) !! i = Some x /\
        board_of (GameState previous) !! i = Some y /\ x <> y /\
        ~ (Z.of_nat i = MoveRow proposed /\
           0 < MoveCount proposed <= y /\
           x = y - MoveCount proposed)) ->
  CheckMove proposed previous = false.
Proof.
  intros Hwf Hc Hbad.
  destruct (CheckMove proposed previous) eqn:Hchk; [exfalso | reflexivity].
  apply CheckMove_spec in Hchk; [|exact Hwf|exact Hc].
  destruct Hchk as (Hlen & Hrow & Hall).
  destruct Hbad as [Hl | [Hr | [Htwo | Hone]]].
  - congruence.
  - contradiction.
  - destruct Htwo as (i & j & x & y & x' & y' & Hij & Hx & Hy & Hxy & Hx' & Hy' & Hxy').
    destruct (Hall i x y Hx Hy) as [|(Hi & _)]; [contradiction|].
    destruct (Hall j x' y' Hx' Hy') as [|(Hj & _)]; [contradiction|].
    lia.
  - destruct Hone as (i & x & y & Hx & Hy & Hxy & Hnot).
    destruct (Hall i x y Hx Hy) as [|(Hi & Hamt & _ & Hnew)]; [contradiction|].
    apply Hnot. repeat split; try assumption; lia.
Qed.

Lemma CheckMove_rejects_witness :
  wf_board [1; 2; 3] /\ in_int8 2 /\
  [1; 2; 2] !! 2%nat = Some 2 /\ [1; 2; 3] !! 2%nat = Some 3 /\
  ~ (Z.of_nat 2 = 1 /\ 0 < 2 <= 3 /\ 2 = 3 - 2) /\
  CheckMove (mkMsg (Some [1; 2; 2]) 1 2) (mkMsg (Some [1; 2; 3]) 0 1) = false.
Proof.
  split; [wf_board_tac|]. split; [unfold in_int8; lia|].
  split; [reflexivity|]. split; [reflexivity|]. split; [lia|].
  apply (CheckMove_rejects (mkMsg (Some [1; 2; 2]) 1 2) (mkMsg (Some [1; 2; 3]) 0 1)).
  - simpl. wf_board_tac.
  - unfold in_int8. simpl. lia.
  - right. right. right. exists 2%nat, 2, 3. simpl.
    split; [reflexivity|]. split; [reflexivity|]. split; [lia|]. lia.
Defined.

(** C3, on the code.  The move that names row 0, declares the amount 0 and
    leaves the three piles as they were is in range and is not a
    GameStart, and CheckMove accepts it: the loop passes over every
    unchanged pile before it looks at the amount.  The same holds for a
    negative amount. *)
Theorem CheckMove_accepts_pass :
  isGameStart (mkMsg (Some [1; 2; 3]) 0 0) = false /\
  CheckMove (mkMsg (Some [1; 2; 3]) 0 0) (mkMsg (Some [1; 2; 3]) (-1) 5) = true /\
  CheckMove (mkMsg (Some [1; 2; 3]) 0 (-3)) (mkMsg (Some [1; 2; 3]) (-1) 5) = true.
Proof. repeat split; vm_compute; reflexivity. Qed.

(** Where the amount is looked at, it is checked: a move that changes a
    pile and declares an amount <= 0 is rejected. *)
Lemma CheckMove_rejects_nonpositive (incmove lastmove : StateMoveMessage) :
  wf_board (board_of (GameState lastmove)) ->
  in_int8 (MoveCount incmove) ->
  board_of (GameState incmove) <> board_of (GameState lastmove) ->
  MoveCount incmove <= 0 ->
  CheckMove incmove lastmove = false.
Proof.
  intros Hwf Hc Hne Hamt.
  destruct (CheckMove incmove lastmove) eqn:Hchk; [exfalso | reflexivity].
  apply CheckMove_spec in Hchk; [|exact Hwf|exact Hc].
  destruct Hchk as (Hlen & _ & Hall).
  apply Hne. apply list_eq. intros i.
  destruct (board_of (GameState incmove) !! i) as [x|] eqn:Hx.
  - destruct (board_of (GameState lastmove) !! i) as [y|] eqn:Hy.
    + destruct (Hall i x y Hx Hy) as [->|(_ & ? & _)]; [reflexivity | lia].
    + apply lookup_lt_Some in Hx. apply lookup_ge_None in Hy. lia.
  - symmetry. apply lookup_ge_None. apply lookup_ge_None in Hx. lia.
Qed.

(** ** The moves of the two strategies *)

Lemma emptyBoard_false (board : list Z) :
  emptyBoard board = false -> exists v, v ∈ board /\ v <> 0.
Proof.
  induction board as [|x l IH]; simpl; [discriminate|].
  destruct (Z.eqb_spec x 0) as [->|Hx]; simpl.
  - intros H. destruct (IH H) as (v & Hv & Hne). exists v. split; [now right | exact Hne].
  - intros _. exists x. split; [left | exact Hx].
Qed.

Lemma emptyBoard_true (board : list Z) :
  emptyBoard board = true -> Forall (fun v => v = 0) board.
Proof.
  induction board as [|x l IH]; simpl; [constructor|].
  destruct (Z.eqb_spec x 0) as [->|Hx]; simpl; [|discriminate].
  intros H. constructor; [reflexivity | exact (IH H)].
Qed.

(** On a board with a coin normalMove returns: it takes one coin from the
    first pile that has one. *)
Lemma normalMove_found (board : list Z) :
  wf_board board -> emptyBoard board = false ->
  exists i v,
    board !! i = Some v /\ 0 < v /\
    (forall j y, board !! j = Some y -> (j < i)%nat -> y = 0) /\
    normalMove board = Some (mkMsg (Some (<[i := v - 1]> board)) (int8 (Z.of_nat i)) 1).
Proof.
  intros Hwf Hne.
  destruct (emptyBoard_false board Hne) as (w & Hw & Hw0).
  unfold wf_board in Hwf. rewrite Forall_lookup in Hwf.
  assert (0 < w) as Hwpos.
  { apply list_elem_of_lookup in Hw. destruct Hw as [k Hk].
    pose proof (Hwf k w Hk) as Hr. unfold in_uint8 in Hr. lia. }
  destruct (list_find_elem_of (fun v => 0 < v) board w Hw Hwpos) as [[i v] Hfind].
  pose proof Hfind as Hspec. apply list_find_Some in Hspec.
  destruct Hspec as (Hi & Hpos & Hfirst).
  exists i, v. split; [exact Hi|]. split; [exact Hpos|]. split.
  - intros j y Hy Hj. specialize (Hfirst j y Hy Hj).
    pose proof (Hwf j y Hy) as Hr. unfold in_uint8 in Hr. lia.
  - unfold normalMove. rewrite Hfind.
    rewrite uint8_small; [reflexivity|].
    pose proof (Hwf i v Hi) as Hr. unfold in_uint8 in *. lia.
Qed.

(** A move that lowers one pile of the previous board, names it and
    declares the difference is accepted, when row and count fit int8. *)
Lemma CheckMove_single_pile (board : list Z) (previous : StateMoveMessage)
      (i : nat) (v w : Z) :
  wf_board board -> board_of (GameState previous) = board ->
  board !! i = Some v -> v < 128 -> 0 <= w < v ->
  CheckMove (mkMsg (Some (<[i := w]> board)) (Z.of_nat i) (v - w)) previous = true.
Proof.
  intros Hwf Hprev Hi Hv Hw.
  apply CheckMove_spec; simpl.
  - now rewrite Hprev.
  - unfold in_int8. lia.
  - rewrite Hprev, length_insert. split; [reflexivity|].
    pose proof (lookup_lt_Some _ _ _ Hi) as Hlt. split; [lia|].
    intros j x y Hx Hy.
    destruct (Nat.eq_dec i j) as [<-|Hij].
    + rewrite list_lookup_insert_eq in Hx by exact Hlt.
      injection Hx as <-. rewrite Hi in Hy. injection Hy as <-.
      right. repeat split; lia.
    + rewrite list_lookup_insert_ne in Hx by exact Hij.
      left. congruence.
Qed.

(** C6.  For every non-empty board B, the move produced by either strategy
    (normalMove(B), or bestMove(B)) is judged legal by CheckMove when
    checked against B as the previous state.  The boards are those a
    message can describe through its int8 row and amount: well-typed, at
    most 128 piles, no pile above 127; every board of a game is one
    ([game_board_fits]). *)
Theorem strategy_moves_legal (B : list Z) (previous : StateMoveMessage) :
  wf_board B -> emptyBoard B = false ->
  (length B <= 128)%nat -> Forall (fun v => v < 128) B ->
  board_of (GameState previous) = B ->
  (exists m, normalMove B = Some m /\ CheckMove m previous = true) /\
  (exists m, bestMove B = Ok m /\ CheckMove m previous = true).
Proof.
  intros Hwf Hne Hlen Hsmall Hprev.
  rewrite Forall_lookup in Hsmall.
  assert (exists m, normalMove B = Some m /\ CheckMove m previous = true) as Hnormal.
  { destruct (normalMove_found B Hwf Hne) as (i & v & Hi & Hpos & _ & Hmove).
    eexists. split; [exact Hmove|].
    pose proof (lookup_lt_Some _ _ _ Hi) as Hlt.
    rewrite int8_small by lia.
    replace 1 with (v - (v - 1)) at 2 by lia.
    apply CheckMove_single_pile; try assumption; [exact (Hsmall i v Hi) | lia]. }
  split; [exact Hnormal|].
  destruct (Z.eq_dec (nimSum B) 0) as [Hz|Hnz].
  - destruct Hnormal as (m & Hm & Hchk). exists m. split; [|exact Hchk].
    unfold bestMove. cbv zeta. rewrite Hz, Hm. reflexivity.
  - destruct (bestMove_found B Hwf Hnz) as (i & v & Hi & Hlt & _ & Hmove).
    eexists. split; [exact Hmove|].
    pose proof (lookup_lt_Some _ _ _ Hi) as Hidx.
    pose proof (Hsmall i v Hi) as Hv. simpl in Hv.
    pose proof (nimSum_uint8 _ Hwf) as HS.
    assert (in_uint8 v) as Hv8.
    { unfold wf_board in Hwf. rewrite Forall_lookup in Hwf. exact (Hwf i v Hi). }
    pose proof (lxor_uint8 _ _ HS Hv8) as Htmp. unfold in_uint8 in *.
    rewrite (int8_small (Z.of_nat i)) by lia.
    rewrite uint8_small by (unfold in_uint8; lia).
    rewrite int8_small by lia.
    apply CheckMove_single_pile; try assumption. lia.
Qed.

Lemma strategy_moves_legal_witness :
  wf_board [1; 9; 1; 5] /\ emptyBoard [1; 9; 1; 5] = false /\
  (length [1; 9; 1; 5] <= 128)%nat /\ Forall (fun v => v < 128) [1; 9; 1; 5] /\
  (exists m, normalMove [1; 9; 1; 5] = Some m /\
             CheckMove m (mkMsg (Some [1; 9; 1; 5]) (-1) 7) = true) /\
  (exists m, bestMove [1; 9; 1; 5] = Ok m /\
             CheckMove m (mkMsg (Some [1; 9; 1; 5]) (-1) 7) = true).
Proof.
  assert (Forall (fun v => v < 128) [1; 9; 1; 5]) as Hsmall
    by (repeat first [apply List.Forall_nil | apply List.Forall_cons; [lia|]]).
  split; [wf_board_tac|]. split; [reflexivity|]. split; [simpl; lia|].
  split; [exact Hsmall|].
  apply (strategy_moves_legal [1; 9; 1; 5] (mkMsg (Some [1; 9; 1; 5]) (-1) 7));
    [wf_board_tac | reflexivity | simpl; lia | exact Hsmall | reflexivity].
Defined.

(** ** GenerateBoard *)

Lemma counter_rand_spec : RandSpec counter_rand.
Proof. intros n s Hn. simpl. apply Z.mod_pos_bound. exact Hn. Qed.

Section GenerateBoardProps.
Context {R : Rand} {HR : RandSpec R}.

Lemma fill_rows_length (numRows : nat) (s : RngState) :
  length (fill_rows numRows s) = numRows.
Proof.
  revert s. induction numRows as [|k IH]; intros s; simpl; [reflexivity|].
  destruct (rand_Intn 10 s) as [c s']. simpl. now rewrite IH.
Qed.

Lemma fill_rows_range (numRows : nat) (s : RngState) :
  Forall (fun v => 1 <= v <= 10) (fill_rows numRows s).
Proof.
  revert s. induction numRows as [|k IH]; intros s; simpl; [constructor|].
  pose proof (rand_Intn_range 10 s ltac:(lia)) as Hc.
  destruct (rand_Intn 10 s) as [c s']. simpl in Hc.
  constructor; [|apply IH].
  rewrite uint8_small by (unfold in_uint8; lia). lia.
Qed.

(** C7.  For every seed, GenerateBoard(seed) returns a board with between
    3 and 16 piles, each pile count between 1 and 10, whose nim-sum is
    nonzero: the increment or decrement of the last pile after
    generation changes a zero nim-sum and keeps the count in range. *)
Theorem GenerateBoard_spec (seed : Z) :
  (3 <= length (GenerateBoard seed) <= 16)%nat /\
  Forall (fun v => 1 <= v <= 10) (GenerateBoard seed) /\
  nimSum (GenerateBoard seed) <> 0.
Proof.
  unfold GenerateBoard.
  pose proof (rand_Intn_range 14 (rand_Seed seed) ltac:(lia)) as Hr.
  destruct (rand_Intn 14 (rand_Seed seed)) as [r s]. simpl in Hr. cbv zeta.
  set (board := fill_rows (Z.to_nat (r + 3)) s).
  assert (length board = Z.to_nat (r + 3)) as Hlen by apply fill_rows_length.
  pose proof (fill_rows_range (Z.to_nat (r + 3)) s) as Hrange. fold board in Hrange.
  destruct (Z.eqb_spec (nimSum board) 0) as [Hz|Hnz].
  - set (last := Z.to_nat (r + 3 - 1)).
    assert (last < length board)%nat as Hlast by (unfold last; lia).
    pose proof (list_lookup_lookup_total_lt board last Hlast) as Hv.
    set (v := board !!! last) in *.
    assert (1 <= v <= 10) as Hvr.
    { rewrite Forall_lookup in Hrange. exact (Hrange last v Hv). }
    destruct (Z.ltb_spec v 10) as [Hlt|Hge].
    + rewrite uint8_small by (unfold in_uint8; lia).
      rewrite length_insert. split; [lia|]. split.
      * apply Forall_insert; [exact Hrange | lia].
      * rewrite (nimSum_insert board last v _ Hv), Hz, Z.lxor_0_l.
        intros Heq. apply Z.lxor_eq in Heq. lia.
    + rewrite uint8_small by (unfold in_uint8; lia).
      rewrite length_insert. split; [lia|]. split.
      * apply Forall_insert; [exact Hrange | lia].
      * rewrite (nimSum_insert board last v _ Hv), Hz, Z.lxor_0_l.
        intros Heq. apply Z.lxor_eq in Heq. lia.
  - split; [lia|]. split; [exact Hrange | exact Hnz].
Qed.
End GenerateBoardProps.

Lemma GenerateBoard_spec_witness :
  RandSpec counter_rand /\
  (3 <= length (@GenerateBoard counter_rand 5) <= 16)%nat /\
  Forall (fun v => 1 <= v <= 10) (@GenerateBoard counter_rand 5) /\
  nimSum (@GenerateBoard counter_rand 5) <> 0.
Proof.
  split; [exact counter_rand_spec|].
  exact (@GenerateBoard_spec counter_rand counter_rand_spec 5).
Defined.

Example GenerateBoard_counter_5 :
  @GenerateBoard counter_rand 5 = [7; 8; 9; 10; 1; 2; 3; 4].
Proof. vm_compute. reflexivity. Qed.

(** Seed 57 draws the piles 9, 10, 1, 2 with nim-sum 0: the last pile is
    incremented.  Seed 66 draws 13 piles ending in 10 with nim-sum 0: the
    last pile is decremented. *)
Example GenerateBoard_counter_57 :
  @GenerateBoard counter_rand 57 = [9; 10; 1; 3].
Proof. vm_compute. reflexivity. Qed.

Example GenerateBoard_counter_66 :
  @GenerateBoard counter_rand 66 = [8; 9; 10; 1; 2; 3; 4; 5; 6; 7; 8; 9; 9].
Proof. vm_compute. reflexivity. Qed.

(** ** Play *)

Lemma Play_empty (move : StateMoveMessage) (mode : Z) :
  emptyBoard (board_of (GameState move)) = true ->
  Play move mode = Ok (mkMsg None (-2) (-2)).
Proof. intros H. unfold Play. cbv zeta. now rewrite H. Qed.

(** On a board with a coin Play returns a move, under either mode, and
    the move lowers exactly one pile. *)
Lemma Play_lowers_one_pile (move : StateMoveMessage) (mode : Z) :
  wf_board (board_of (GameState move)) ->
  emptyBoard (board_of (GameState move)) = false ->
  exists i v w reply,
    Play move mode = Ok reply /\
    board_of (GameState move) !! i = Some v /\ 0 <= w < v /\
    GameState reply = Some (<[i := w]> (board_of (GameState move))).
Proof.
  intros Hwf Hne.
  destruct (normalMove_found _ Hwf Hne) as (i & v & Hi & Hpos & _ & Hnormal).
  unfold Play. cbv zeta. rewrite Hne.
  destruct (mode =? 1).
  - destruct (Z.eq_dec (nimSum (board_of (GameState move))) 0) as [Hz|Hnz].
    + unfold bestMove. cbv zeta. rewrite Hz, Hnormal. simpl.
      exists i, v, (v - 1). eexists. split; [reflexivity|].
      split; [exact Hi|]. split; [lia | reflexivity].
    + destruct (bestMove_found _ Hwf Hnz) as (k & u & Hk & Hlt & _ & Hbest).
      exists k, u, (Z.lxor (nimSum (board_of (GameState move))) u). eexists.
      split; [exact Hbest|]. split; [exact Hk|]. split; [|reflexivity].
      split; [|exact Hlt].
      apply Z.lxor_nonneg.
      pose proof (nimSum_uint8 _ Hwf) as HS.
      unfold wf_board in Hwf. rewrite Forall_lookup in Hwf.
      pose proof (Hwf k u Hk) as Hu. unfold in_uint8 in *. lia.
  - rewrite Hnormal.
    exists i, v, (v - 1). eexists. split; [reflexivity|].
    split; [exact Hi|]. split; [lia | reflexivity].
Qed.

(** ** The receive loop *)

Lemma CheckMove_not_GameStart (m lastMove : StateMoveMessage) :
  CheckMove m lastMove = true -> isGameStart m = false.
Proof.
  intros H. apply CheckMove_true in H. destruct H as (_ & Hrow & _).
  unfold isGameStart. destruct (GameState m); [reflexivity|].
  apply Z.eqb_neq. lia.
Qed.

Section ReceiveLoop.
Context {R : Rand}.

(** A move that is not a GameStart and fails CheckMove: the stored
    state is sent again, and saving it changes nothing. *)
Lemma serve_invalid (tabs : Sessions) (raddrStr : string)
      (clientMove lastMove : StateMoveMessage) :
  clientGames tabs !! raddrStr = Some lastMove ->
  isGameStart clientMove = false ->
  CheckMove clientMove lastMove = false ->
  serve raddrStr (Some clientMove) tabs = Ok (tabs, Some lastMove).
Proof.
  intros Hlast Hstart Hchk. unfold serve. rewrite Hstart, Hlast, Hchk. simpl.
  rewrite (insert_id _ _ _ Hlast). now destruct tabs.
Qed.

(** A move that CheckMove accepts: Play's reply is saved and sent. *)
Lemma serve_valid (tabs : Sessions) (raddrStr : string)
      (clientMove lastMove servMove : StateMoveMessage) :
  clientGames tabs !! raddrStr = Some lastMove ->
  CheckMove clientMove lastMove = true ->
  Play clientMove (default 0 (clientDifficulties tabs !! raddrStr)) = Ok servMove ->
  serve raddrStr (Some clientMove) tabs =
    Ok (mkSessions (<[raddrStr := servMove]> (clientGames tabs)) (clientDifficulties tabs),
        Some servMove).
Proof.
  intros Hlast Hchk Hplay. unfold serve.
  rewrite (CheckMove_not_GameStart _ _ Hchk), Hlast, Hchk. simpl.
  now rewrite Hplay.
Qed.

(** The reply to a move is never a legal move from that reply's own
    board for the same message: the pile Play lowered is higher in the
    client's board, and the resignation has no board. *)
Lemma CheckMove_against_reply (m reply : StateMoveMessage) (mode : Z) :
  wf_msg m -> Play m mode = Ok reply -> CheckMove m reply = false.
Proof.
  intros (Hwf & _ & Hc) Hplay.
  destruct (CheckMove m reply) eqn:Hchk; [exfalso | reflexivity].
  destruct (emptyBoard (board_of (GameState m))) eqn:Hempty.
  - rewrite (Play_empty _ _ Hempty) in Hplay. injection Hplay as <-.
    apply CheckMove_true in Hchk. simpl in Hchk.
    destruct Hchk as (Hlen & Hrow & _). lia.
  - destruct (Play_lowers_one_pile m mode Hwf Hempty)
      as (i & v & w & reply' & Hplay' & Hi & Hw & Hboard).
    rewrite Hplay in Hplay'. injection Hplay' as <-.
    assert (board_of (GameState reply) = <[i := w]> (board_of (GameState m))) as Hb
      by (now rewrite Hboard).
    assert (wf_board (board_of (GameState reply))) as Hwfr.
    { rewrite Hb. apply Forall_insert; [exact Hwf|].
      unfold wf_board in Hwf. rewrite Forall_lookup in Hwf.
      pose proof (Hwf i v Hi) as Hv. unfold in_uint8 in *. lia. }
    apply CheckMove_spec in Hchk; [|exact Hwfr|exact Hc].
    destruct Hchk as (_ & _ & Hall).
    assert (board_of (GameState reply) !! i = Some w) as Hri.
    { rewrite Hb. apply list_lookup_insert_eq. now apply lookup_lt_Some in Hi. }
    destruct (Hall i v w Hi Hri) as [|(_ & ? & _ & ?)]; lia.
Qed.

(** C4.  For every session whose stored last state is the server's reply
    S = Play(m, difficulty) to a client move m it previously accepted, a
    re-delivery of the identical move m is judged invalid by CheckMove
    against S, so the handler replies with S itself and the stored
    session state after handling is still S: the tables are unchanged
    and no new move is computed. *)
Theorem duplicate_move_resent (tabs : Sessions) (raddrStr : string)
        (m L S : StateMoveMessage) (difficulty : Z) :
  wf_msg m ->
  CheckMove m L = true ->
  Play m difficulty = Ok S ->
  clientGames tabs !! raddrStr = Some S ->
  CheckMove m S = false /\
  serve raddrStr (Some m) tabs = Ok (tabs, Some S) /\
  (forall tabs' reply,
      serve raddrStr (Some m) tabs = Ok (tabs', reply) ->
      reply = Some S /\ clientGames tabs' !! raddrStr = Some S).
Proof.
  intros Hwf Haccepted Hplay Hstored.
  pose proof (CheckMove_against_reply m S difficulty Hwf Hplay) as Hdup.
  pose proof (serve_invalid tabs raddrStr m S Hstored
                (CheckMove_not_GameStart _ _ Haccepted) Hdup) as Hserve.
  split; [exact Hdup|]. split; [exact Hserve|].
  intros tabs' reply H. rewrite Hserve in H. injection H as <- <-.
  split; [reflexivity | exact Hstored].
Qed.

(** C5 (amended).  For every existing session with stored last state L
    and every decodable inbound move that is not the GameStart sentinel
    and fails CheckMove against L (including any such move with an
    out-of-range pile index), the server replies with L and the session
    tables, so the stored state and the difficulty, are after handling
    what they were before. *)
Theorem invalid_move_resends_last (tabs : Sessions) (raddrStr : string)
        (m L : StateMoveMessage) :
  clientGames tabs !! raddrStr = Some L ->
  isGameStart m = false ->
  CheckMove m L = false \/
  ~ (0 <= MoveRow m < Z.of_nat (length (board_of (GameState m)))) ->
  serve raddrStr (Some m) tabs = Ok (tabs, Some L).
Proof.
  intros Hstored Hstart Hbad.
  apply serve_invalid; [exact Hstored | exact Hstart |].
  destruct Hbad as [Hchk|Hrow]; [exact Hchk|].
  destruct (CheckMove m L) eqn:Hchk; [exfalso | reflexivity].
  apply CheckMove_true in Hchk. destruct Hchk as (_ & Hin & _). contradiction.
Qed.
End ReceiveLoop.

Ltac wf_msg_tac :=
  split; [simpl; wf_board_tac | split; unfold in_int8; simpl; lia].

Lemma duplicate_move_resent_witness :
  let m := mkMsg (Some [0; 9; 1; 5]) 0 1 in
  let L := mkMsg (Some [1; 9; 1; 5]) (-1) 7 in
  let S := mkMsg (Some [0; 4; 1; 5]) 1 5 in
  let tabs := mkSessions {[ "c"%string := S ]} {[ "c"%string := 1 ]} in
  wf_msg m /\ CheckMove m L = true /\ Play m 1 = Ok S /\
  clientGames tabs !! "c"%string = Some S /\
  CheckMove m S = false /\
  @serve counter_rand "c"%string (Some m) tabs = Ok (tabs, Some S).
Proof.
  intros m L S tabs.
  assert (wf_msg m) as Hwf by wf_msg_tac.
  assert (CheckMove m L = true) as Hacc by (vm_compute; reflexivity).
  assert (Play m 1 = Ok S) as Hplay by (vm_compute; reflexivity).
  assert (clientGames tabs !! "c"%string = Some S) as Hst by apply lookup_singleton_eq.
  destruct (@duplicate_move_resent counter_rand tabs "c"%string m L S 1 Hwf Hacc Hplay Hst)
    as (Hdup & Hserve & _).
  split; [exact Hwf|]. split; [exact Hacc|]. split; [exact Hplay|].
  split; [exact Hst|]. split; [exact Hdup | exact Hserve].
Defined.

Lemma invalid_move_resends_last_witness :
  let m := mkMsg (Some [1; 2; 3]) 7 1 in
  let L := mkMsg (Some [1; 2; 3]) 0 1 in
  let tabs := mkSessions {[ "c"%string := L ]} {[ "c"%string := 0 ]} in
  clientGames tabs !! "c"%string = Some L /\
  isGameStart m = false /\
  ~ (0 <= MoveRow m < Z.of_nat (length (board_of (GameState m)))) /\
  @serve counter_rand "c"%string (Some m) tabs = Ok (tabs, Some L).
Proof.
  intros m L tabs.
  assert (clientGames tabs !! "c"%string = Some L) as Hst by apply lookup_singleton_eq.
  assert (~ (0 <= MoveRow m < Z.of_nat (length (board_of (GameState m))))) as Hrow
    by (simpl; lia).
  split; [exact Hst|]. split; [reflexivity|]. split; [exact Hrow|].
  apply (@invalid_move_resends_last counter_rand tabs "c"%string m L Hst);
    [reflexivity | right; exact Hrow].
Defined.

(** C5 as stated fails on the GameStart sentinel.  The message with absent
    board, row -1 and seed 5 fails CheckMove against the stored state (its
    row is out of range), and the server does not send the stored state
    again: it starts a new game, stores and sends the new board with row
    -1, and sets the difficulty to 5 & 1 = 1. *)
Lemma GameStart_overwrites_session :
  let m := mkMsg None (-1) 5 in
  let L := mkMsg (Some [1; 2; 3]) 0 1 in
  let tabs := mkSessions {[ "c"%string := L ]} {[ "c"%string := 0 ]} in
  clientGames tabs !! "c"%string = Some L /\
  clientDifficulties tabs !! "c"%string = Some 0 /\
  CheckMove m L = false /\
  exists tabs' reply,
    @serve counter_rand "c"%string (Some m) tabs = Ok (tabs', Some reply) /\
    reply = mkMsg (Some [7; 8; 9; 10; 1; 2; 3; 4]) (-1) 5 /\
    reply <> L /\
    clientGames tabs' !! "c"%string = Some reply /\
    clientDifficulties tabs' !! "c"%string = Some 1.
Proof.
  intros m L tabs.
  split; [apply lookup_singleton_eq|]. split; [apply lookup_singleton_eq|].
  split; [vm_compute; reflexivity|].
  eexists _, _. split; [unfold serve; simpl; reflexivity|].
  split; [now rewrite GenerateBoard_counter_5|].
  split; [discriminate|].
  split; apply lookup_insert_eq.
Qed.

(** C9 (amended).  Along every in-game server transition -- an inbound
    move accepted by CheckMove followed by storing Play's counter-move as
    the new session state -- in which the client's board still holds a
    coin, the board length is unchanged and no pile's count increases,
    from the stored board to the client's and from the client's to the
    stored reply.  When the client's board is empty the state stored is
    the resignation, which has no board. *)
Theorem accepted_move_never_raises {R : Rand} (tabs : Sessions) (raddrStr : string)
        (m L : StateMoveMessage) :
  wf_msg m -> wf_board (board_of (GameState L)) ->
  clientGames tabs !! raddrStr = Some L ->
  CheckMove m L = true ->
  (emptyBoard (board_of (GameState m)) = false ->
   exists S,
     serve raddrStr (Some m) tabs =
       Ok (mkSessions (<[raddrStr := S]> (clientGames tabs)) (clientDifficulties tabs),
           Some S) /\
     length (board_of (GameState m)) = length (board_of (GameState L)) /\
     length (board_of (GameState S)) = length (board_of (GameState L)) /\
     forall i x y z,
       board_of (GameState L) !! i = Some x ->
       board_of (GameState m) !! i = Some y ->
       board_of (GameState S) !! i = Some z ->
       z <= y <= x) /\
  (emptyBoard (board_of (GameState m)) = true ->
   serve raddrStr (Some m) tabs =
     Ok (mkSessions (<[raddrStr := mkMsg None (-2) (-2)]> (clientGames tabs))
                    (clientDifficulties tabs),
         Some (mkMsg None (-2) (-2)))).
Proof.
  intros (Hwf & _ & Hc) HwfL Hstored Hchk. split.
  - intros Hne.
    destruct (Play_lowers_one_pile m (default 0 (clientDifficulties tabs !! raddrStr)) Hwf Hne)
      as (k & v & w & S & Hplay & Hk & Hw & Hboard).
    exists S. split; [exact (serve_valid tabs raddrStr m L S Hstored Hchk Hplay)|].
    apply CheckMove_spec in Hchk; [|exact HwfL|exact Hc].
    destruct Hchk as (Hlen & _ & Hall).
    rewrite Hboard. simpl. rewrite length_insert.
    split; [now symmetry|]. split; [now symmetry|].
    intros i x y z Hx Hy Hz. split.
    + destruct (Nat.eq_dec k i) as [<-|Hki].
      * rewrite list_lookup_insert_eq in Hz by (now apply lookup_lt_Some in Hk).
        injection Hz as <-. rewrite Hk in Hy. injection Hy as <-. lia.
      * rewrite list_lookup_insert_ne in Hz by exact Hki.
        rewrite Hy in Hz. injection Hz as <-. lia.
    + destruct (Hall i y x Hy Hx) as [->|(_ & ? & _ & ->)]; lia.
  - intros Hempty.
    apply (serve_valid tabs raddrStr m L _ Hstored Hchk). now apply Play_empty.
Qed.

Lemma accepted_move_never_raises_witness :
  let m := mkMsg (Some [0; 9; 1; 5]) 0 1 in
  let L := mkMsg (Some [1; 9; 1; 5]) (-1) 7 in
  let tabs := mkSessions {[ "c"%string := L ]} {[ "c"%string := 1 ]} in
  wf_msg m /\ wf_board (board_of (GameState L)) /\
  clientGames tabs !! "c"%string = Some L /\
  CheckMove m L = true /\
  emptyBoard (board_of (GameState m)) = false /\
  exists S,
    @serve counter_rand "c"%string (Some m) tabs =
      Ok (mkSessions (<["c"%string := S]> (clientGames tabs)) (clientDifficulties tabs),
          Some S) /\
    length (board_of (GameState m)) = length (board_of (GameState L)) /\
    length (board_of (GameState S)) = length (board_of (GameState L)) /\
    forall i x y z,
      board_of (GameState L) !! i = Some x ->
      board_of (GameState m) !! i = Some y ->
      board_of (GameState S) !! i = Some z ->
      z <= y <= x.
Proof.
  intros m L tabs.
  assert (wf_msg m) as Hwf by wf_msg_tac.
  assert (wf_board (board_of (GameState L))) as HwfL by (simpl; wf_board_tac).
  assert (clientGames tabs !! "c"%string = Some L) as Hst by apply lookup_singleton_eq.
  assert (CheckMove m L = true) as Hacc by (vm_compute; reflexivity).
  assert (emptyBoard (board_of (GameState m)) = false) as Hne by reflexivity.
  split; [exact Hwf|]. split; [exact HwfL|]. split; [exact Hst|].
  split; [exact Hacc|]. split; [exact Hne|].
  exact (proj1 (@accepted_move_never_raises counter_rand tabs "c"%string m L
                  Hwf HwfL Hst Hacc) Hne).
Defined.

(** C9 as stated fails on the move that takes the last coin.  CheckMove
    accepts the board [0; 0; 0] against the stored [0; 0; 1]; Play answers
    an empty board with the resignation, whose board is absent, and that
    is stored: the stored board's length goes from 3 to 0. *)
Lemma last_coin_stores_resignation :
  let m := mkMsg (Some [0; 0; 0]) 2 1 in
  let L := mkMsg (Some [0; 0; 1]) 0 1 in
  let tabs := mkSessions {[ "c"%string := L ]} {[ "c"%string := 0 ]} in
  clientGames tabs !! "c"%string = Some L /\
  CheckMove m L = true /\
  exists tabs' S,
    @serve counter_rand "c"%string (Some m) tabs = Ok (tabs', Some S) /\
    clientGames tabs' !! "c"%string = Some S /\
    S = mkMsg None (-2) (-2) /\
    length (board_of (GameState S)) <> length (board_of (GameState L)).
Proof.
  intros m L tabs.
  assert (clientGames tabs !! "c"%string = Some L) as Hst by apply lookup_singleton_eq.
  assert (CheckMove m L = true) as Hacc by (vm_compute; reflexivity).
  split; [exact Hst|]. split; [exact Hacc|].
  eexists _, _. split.
  - apply (@serve_valid counter_rand tabs "c"%string m L _ Hst Hacc).
    apply Play_empty. reflexivity.
  - split; [apply lookup_insert_eq|]. split; [reflexivity|]. simpl. lia.
Qed.

(** ** The retry client's reply check *)

(** Inside the reply's board the loop does not panic. *)
Lemma successor_from_in_range (move : StateMoveMessage) (state : list Z) (idx : nat) :
  (idx + length state <= length (board_of (GameState move)))%nat ->
  exists b, Client.successor_from idx state move = Ok b.
Proof.
  revert idx. induction state as [|elm rest IH]; intros idx Hlen; simpl in *.
  - now exists true.
  - destruct (lookup_lt_is_Some_2 (board_of (GameState move)) idx ltac:(lia)) as [g Hg].
    rewrite Hg.
    destruct (Z.of_nat idx =? MoveRow move).
    + destruct (negb (uint8 (elm - uint8 (MoveCount move)) =? g)); [now exists false|].
      apply IH. lia.
    + destruct (negb (elm =? g)); [now exists false|].
      apply IH. lia.
Qed.

(** Past the reply's board the first index is the out-of-range access. *)
Lemma successor_from_past_end (move : StateMoveMessage) (elm : Z) (rest : list Z) (idx : nat) :
  (length (board_of (GameState move)) <= idx)%nat ->
  Client.successor_from idx (elm :: rest) move = Panic.
Proof.
  intros Hlen. simpl.
  rewrite (proj2 (lookup_ge_None (board_of (GameState move)) idx) Hlen).
  now destruct (Z.of_nat idx =? MoveRow move).
Qed.

(** Every tail of the reply's board is matched by some piles of a client
    state: the reply's pile itself, or at the declared row the pile plus
    the declared amount, modulo 2^8. *)
Lemma successor_from_matching (move : StateMoveMessage) (n idx : nat) :
  wf_board (board_of (GameState move)) ->
  (idx + n = length (board_of (GameState move)))%nat ->
  exists pre,
    length pre = n /\ wf_board pre /\
    forall rest,
      Client.successor_from idx (pre ++ rest) move =
      Client.successor_from (idx + n) rest move.
Proof.
  intros Hwf. revert idx.
  induction n as [|n IH]; intros idx Hlen.
  - exists []. split; [reflexivity|]. split; [constructor|].
    intros rest. simpl. now rewrite Nat.add_0_r.
  - destruct (lookup_lt_is_Some_2 (board_of (GameState move)) idx ltac:(lia)) as [g Hg].
    assert (in_uint8 g) as Hg8.
    { unfold wf_board in Hwf. rewrite Forall_lookup in Hwf. exact (Hwf idx g Hg). }
    destruct (IH (S idx) ltac:(lia)) as (pre & Hpre & Hwfpre & Hrun).
    destruct (Z.of_nat idx =? MoveRow move) eqn:Hrow.
    + exists (uint8 (g + uint8 (MoveCount move)) :: pre).
      split; [simpl; now rewrite Hpre|].
      split; [constructor; [apply uint8_range | exact Hwfpre]|].
      intros rest. simpl. rewrite Hrow, Hg.
      assert (uint8 (uint8 (g + uint8 (MoveCount move)) - uint8 (MoveCount move)) = g) as ->.
      { unfold uint8, in_uint8 in *.
        rewrite Zminus_mod_idemp_l.
        replace (g + MoveCount move mod 256 - MoveCount move mod 256) with g by lia.
        apply Z.mod_small. lia. }
      rewrite Z.eqb_refl. simpl. rewrite Hrun. f_equal. lia.
    + exists (g :: pre).
      split; [simpl; now rewrite Hpre|].
      split; [constructor; [exact Hg8 | exact Hwfpre]|].
      intros rest. simpl. rewrite Hrow, Hg, Z.eqb_refl. simpl.
      rewrite Hrun. f_equal. lia.
Qed.

(** When every pile of the reply passes the test and the state is longer
    than the reply's board, the loop reaches the index past its end. *)
Lemma successor_from_all_pass (move : StateMoveMessage) (state : list Z) (idx : nat) :
  (idx <= length (board_of (GameState move)))%nat ->
  (length (board_of (GameState move)) < idx + length state)%nat ->
  (forall j elm g,
      state !! j = Some elm ->
      board_of (GameState move) !! (idx + j)%nat = Some g ->
      pile_passes move (idx + j) elm g = true) ->
  Client.successor_from idx state move = Panic.
Proof.
  revert idx. induction state as [|elm rest IH]; intros idx Hle Hlt Hall.
  - simpl in Hlt. lia.
  - destruct (board_of (GameState move) !! idx) as [g|] eqn:Hg.
    + pose proof (Hall 0%nat elm g eq_refl) as H0.
      rewrite Nat.add_0_r in H0. specialize (H0 Hg).
      pose proof (lookup_lt_Some _ _ _ Hg) as Hidx.
      assert (Client.successor_from (S idx) rest move = Panic) as Hrest.
      { apply IH; [lia | simpl in Hlt; lia |].
        intros j e g' He Hg'.
        replace (S idx + j)%nat with (idx + S j)%nat in * by lia.
        apply (Hall (S j) e g'); [exact He | exact Hg']. }
      unfold pile_passes in H0. simpl. rewrite Hg.
      destruct (Z.of_nat idx =? MoveRow move); rewrite H0; simpl; exact Hrest.
    + simpl. rewrite Hg. now destruct (Z.of_nat idx =? MoveRow move).
Qed.

(** When some pile of the reply fails the test, the loop returns false
    there or earlier, inside the reply's board. *)
Lemma successor_from_some_fails (move : StateMoveMessage) (state : list Z) (idx : nat) :
  (exists j elm g,
      state !! j = Some elm /\
      board_of (GameState move) !! (idx + j)%nat = Some g /\
      pile_passes move (idx + j) elm g = false) ->
  Client.successor_from idx state move = Ok false.
Proof.
  revert idx. induction state as [|elm rest IH]; intros idx (j & e & g & He & Hg & Hfail).
  - discriminate.
  - assert (idx < length (board_of (GameState move)))%nat as Hidx
      by (apply lookup_lt_Some in Hg; lia).
    destruct (lookup_lt_is_Some_2 _ _ Hidx) as [g0 Hg0].
    destruct (pile_passes move idx elm g0) eqn:Hpass.
    + assert (Client.successor_from (S idx) rest move = Ok false) as Hrest.
      { apply IH. destruct j as [|j].
        - rewrite Nat.add_0_r in Hg, Hfail. simpl in He. congruence.
        - replace (idx + S j)%nat with (S idx + j)%nat in * by lia.
          exists j, e, g. split; [exact He | split; assumption]. }
      unfold pile_passes in Hpass. simpl. rewrite Hg0.
      destruct (Z.of_nat idx =? MoveRow move); rewrite Hpass; simpl; exact Hrest.
    + unfold pile_passes in Hpass. simpl. rewrite Hg0.
      destruct (Z.of_nat idx =? MoveRow move); now rewrite Hpass.
Qed.

(** On a reply whose board is shorter than the state the check has two
    outcomes: the out-of-range access when all piles of the reply pass,
    false when one does not. *)
Lemma isValidSuccessor_short_reply (state : list Z) (move : StateMoveMessage) :
  (length (board_of (GameState move)) < length state)%nat ->
  ((forall j elm g,
       state !! j = Some elm -> board_of (GameState move) !! j = Some g ->
       pile_passes move j elm g = true) ->
   Client.isValidSuccessor state move = Panic) /\
  ((exists j elm g,
       state !! j = Some elm /\ board_of (GameState move) !! j = Some g /\
       pile_passes move j elm g = false) ->
   Client.isValidSuccessor state move = Ok false).
Proof.
  intros Hshort. unfold Client.isValidSuccessor. split.
  - intros Hall. apply successor_from_all_pass; [lia | simpl; lia | exact Hall].
  - intros Hsome. apply successor_from_some_fails. exact Hsome.
Qed.

(** Over the piles of a state, either every pile of the reply passes or
    some pile fails. *)
Lemma piles_pass_or_fail (move : StateMoveMessage) (state : list Z) (idx : nat) :
  (forall j elm g,
      state !! j = Some elm ->
      board_of (GameState move) !! (idx + j)%nat = Some g ->
      pile_passes move (idx + j) elm g = true) \/
  (exists j elm g,
      state !! j = Some elm /\
      board_of (GameState move) !! (idx + j)%nat = Some g /\
      pile_passes move (idx + j) elm g = false).
Proof.
  revert idx. induction state as [|elm rest IH]; intros idx.
  - left. intros j e g He. discriminate.
  - assert ((forall g, board_of (GameState move) !! idx = Some g ->
                       pile_passes move idx elm g = true) \/
            (exists g, board_of (GameState move) !! idx = Some g /\
                       pile_passes move idx elm g = false)) as [Hhead|Hhead].
    { destruct (board_of (GameState move) !! idx) as [g|]; [|left; discriminate].
      destruct (pile_passes move idx elm g) eqn:Hp.
      - left. intros g' Hg'. injection Hg' as <-. exact Hp.
      - right. exists g. split; [reflexivity | exact Hp]. }
    + destruct (IH (S idx)) as [Hall|(j & e & g & He & Hg & Hf)].
      * left. intros [|j] e g He Hg.
        -- rewrite Nat.add_0_r in *. simpl in He. injection He as <-. now apply Hhead.
        -- replace (idx + S j)%nat with (S idx + j)%nat in * by lia.
           apply (Hall j e g); [exact He | exact Hg].
      * right. exists (S j), e, g.
        replace (idx + S j)%nat with (S idx + j)%nat by lia.
        split; [exact He | split; assumption].
    + destruct Hhead as (g & Hg & Hf). right. exists 0%nat, elm, g.
      rewrite Nat.add_0_r. split; [reflexivity | split; assumption].
Qed.

(** C10 (amended).  isValidSuccessor(state, move) indexes move.GameState
    at every index of the client's state with no check of the length or
    the row.  Under len(move.GameState) >= len(state) it returns.  For a
    reply whose board is shorter than the client's current state it runs
    into the out-of-range access exactly when every pile of the reply
    passes the comparison with the state's pile at its index, and it
    returns false, inside the reply's board, exactly when some pile of
    the reply fails it.  The out-of-range access is reachable at every
    length: for every decodable reply and every length of the client's
    state above the length of the reply's board there is a state of that
    length on which the check panics, and for every state and every
    shorter board length there is a decodable reply of that length on
    which it panics. *)
Theorem isValidSuccessor_out_of_range :
  (forall state move,
     (length state <= length (board_of (GameState move)))%nat ->
     exists b, Client.isValidSuccessor state move = Ok b) /\
  (forall state move,
     (length (board_of (GameState move)) < length state)%nat ->
     (Client.isValidSuccessor state move = Panic <->
      forall j elm g,
        state !! j = Some elm -> board_of (GameState move) !! j = Some g ->
        pile_passes move j elm g = true) /\
     (Client.isValidSuccessor state move = Ok false <->
      exists j elm g,
        state !! j = Some elm /\ board_of (GameState move) !! j = Some g /\
        pile_passes move j elm g = false)) /\
  (forall move k,
     wf_msg move ->
     (length (board_of (GameState move)) < k)%nat ->
     exists state,
       length state = k /\ wf_board state /\
       Client.isValidSuccessor state move = Panic) /\
  (forall state n,
     wf_board state ->
     (n < length state)%nat ->
     exists move,
       wf_msg move /\ length (board_of (GameState move)) = n /\
       Client.isValidSuccessor state move = Panic).
Proof.
  split; [|split; [|split]].
  - intros state move Hlen. unfold Client.isValidSuccessor.
    apply successor_from_in_range. simpl. exact Hlen.
  - intros state move Hshort.
    destruct (isValidSuccessor_short_reply state move Hshort) as (Hpanic & Hfalse).
    split; split.
    + intros Hrun. destruct (piles_pass_or_fail move state 0) as [Hall|Hsome];
        [exact Hall|].
      rewrite (Hfalse Hsome) in Hrun. discriminate.
    + exact Hpanic.
    + intros Hrun. destruct (piles_pass_or_fail move state 0) as [Hall|Hsome];
        [|exact Hsome].
      rewrite (Hpanic Hall) in Hrun. discriminate.
    + exact Hfalse.
  - intros move k (Hwf & _ & _) Hk.
    set (n := length (board_of (GameState move))) in *.
    destruct (successor_from_matching move n 0 Hwf ltac:(reflexivity))
      as (pre & Hpre & Hwfpre & Hrun).
    exists (pre ++ replicate (k - n) 0).
    split; [rewrite length_app, length_replicate; lia|].
    split.
    + apply Forall_app. split; [exact Hwfpre|].
      apply Forall_replicate. unfold in_uint8. lia.
    + unfold Client.isValidSuccessor. rewrite Hrun. simpl.
      destruct (k - n)%nat as [|d] eqn:Hd; [lia|]. simpl replicate.
      apply successor_from_past_end. fold n. lia.
  - intros state n Hwf Hn.
    exists (mkMsg (Some (take n state)) (-1) 0).
    assert (length (take n state) = n) as Hlen by (rewrite length_take; lia).
    split; [|split].
    + split; [simpl; now apply Forall_take|].
      split; unfold in_int8; simpl; lia.
    + exact Hlen.
    + apply isValidSuccessor_short_reply; simpl; [lia|].
      intros j elm g He Hg.
      assert (j < n)%nat as Hj by (apply lookup_lt_Some in Hg; lia).
      rewrite lookup_take_lt in Hg by exact Hj.
      unfold pile_passes. simpl.
      destruct (Z.eqb_spec (Z.of_nat j) (-1)) as [|_]; [lia|].
      apply Z.eqb_eq. congruence.
Qed.

Lemma isValidSuccessor_out_of_range_witness :
  le (length [0; 4; 1; 5]) (length (board_of (GameState (mkMsg (Some [0; 4; 1; 5]) 1 5)))) /\
  (exists b, Client.isValidSuccessor [0; 4; 1; 5] (mkMsg (Some [0; 4; 1; 5]) 1 5) = Ok b) /\
  lt (length (board_of (GameState (mkMsg (Some [0; 4]) 1 5)))) (length [0; 9; 1; 5]) /\
  (Client.isValidSuccessor [0; 9; 1; 5] (mkMsg (Some [0; 4]) 1 5) = Panic <->
   forall j elm g,
     [0; 9; 1; 5] !! j = Some elm ->
     board_of (GameState (mkMsg (Some [0; 4]) 1 5)) !! j = Some g ->
     pile_passes (mkMsg (Some [0; 4]) 1 5) j elm g = true) /\
  wf_msg (mkMsg (Some [0; 4]) 1 5) /\
  (exists state,
     length state = 4%nat /\ wf_board state /\
     Client.isValidSuccessor state (mkMsg (Some [0; 4]) 1 5) = Panic) /\
  wf_board [0; 9; 1; 5] /\ lt 2 (length [0; 9; 1; 5]) /\
  (exists move,
     wf_msg move /\ length (board_of (GameState move)) = 2%nat /\
     Client.isValidSuccessor [0; 9; 1; 5] move = Panic).
Proof.
  assert (wf_msg (mkMsg (Some [0; 4]) 1 5)) as Hwf by wf_msg_tac.
  assert (wf_board [0; 9; 1; 5]) as Hst by wf_board_tac.
  assert (lt (length (board_of (GameState (mkMsg (Some [0; 4]) 1 5))))
             (length [0; 9; 1; 5])) as Hshort by (simpl; lia).
  destruct isValidSuccessor_out_of_range as (Htotal & Hpoint & Hstate & Hreply).
  split; [simpl; lia|].
  split; [apply Htotal; simpl; lia|].
  split; [exact Hshort|].
  split; [exact (proj1 (Hpoint [0; 9; 1; 5] (mkMsg (Some [0; 4]) 1 5) Hshort))|].
  split; [exact Hwf|].
  split; [apply (Hstate _ 4%nat Hwf); simpl; lia|].
  split; [exact Hst|]. split; [simpl; lia|].
  apply (Hreply [0; 9; 1; 5] 2%nat Hst). simpl. lia.
Defined.

(** C10 as stated fails pointwise.  The reply with the board [7] is
    decodable and shorter than the client's state [0; 9; 1; 5], and the
    check never reaches the out-of-range access: pile 0 differs (0
    against 7) and isValidSuccessor returns false there. *)
Lemma short_reply_without_panic :
  wf_msg (mkMsg (Some [7]) 1 5) /\ wf_board [0; 9; 1; 5] /\
  lt (length (board_of (GameState (mkMsg (Some [7]) 1 5)))) (length [0; 9; 1; 5]) /\
  Client.isValidSuccessor [0; 9; 1; 5] (mkMsg (Some [7]) 1 5) = Ok false /\
  Client.isValidSuccessor [0; 9; 1; 5] (mkMsg (Some [7]) 1 5) <> Panic.
Proof.
  split; [wf_msg_tac|]. split; [wf_board_tac|]. split; [simpl; lia|].
  assert (Client.isValidSuccessor [0; 9; 1; 5] (mkMsg (Some [7]) 1 5) = Ok false) as H
    by (vm_compute; reflexivity).
  split; [exact H|]. rewrite H. discriminate.
Qed.

(** The state [0; 9; 1; 5] against the reply with the board [0; 4]: the
    first two piles pass (9 - 5 = 4 at the declared row 1) and index 2 is
    out of range.  A shorter reply that differs earlier is answered false
    before the loop leaves its board. *)
Example isValidSuccessor_panics :
  Client.isValidSuccessor [0; 9; 1; 5] (mkMsg (Some [0; 4]) 1 5) = Panic.
Proof. vm_compute. reflexivity. Qed.

Example isValidSuccessor_accepts :
  Client.isValidSuccessor [0; 9; 1; 5] (mkMsg (Some [0; 4; 1; 5]) 1 5) = Ok true.
Proof. vm_compute. reflexivity. Qed.

Example isValidSuccessor_differs_first :
  Client.isValidSuccessor [0; 9; 1; 5] (mkMsg (Some [7]) 1 5) = Ok false.
Proof. vm_compute. reflexivity. Qed.

(** * Further properties of the server and the clients *)

(** ** The terminal test, four times *)

Lemma count_zeros_acc (l : list Z) (c : nat) :
  fold_left (fun count v => if v =? 0 then (count + 1)%nat else count) l c =
  Nat.add c (fold_left (fun count v => if v =? 0 then (count + 1)%nat else count) l 0%nat).
Proof.
  revert c. induction l as [|v l IH]; intros c; simpl; [lia|].
  destruct (v =? 0).
  - rewrite (IH (c + 1)%nat), (IH 1%nat). lia.
  - apply IH.
Qed.

Lemma count_zeros_le (l : list Z) :
  le (fold_left (fun count v => if v =? 0 then (count + 1)%nat else count) l 0%nat)
     (length l).
Proof.
  induction l as [|v l IH]; simpl; [lia|].
  destruct (v =? 0); [rewrite count_zeros_acc|]; lia.
Qed.

Lemma count_zeros_full (l : list Z) :
  Nat.eqb (fold_left (fun count v => if v =? 0 then (count + 1)%nat else count) l 0%nat)
          (length l) = emptyBoard l.
Proof.
  induction l as [|v l IH]; simpl; [reflexivity|].
  destruct (Z.eqb_spec v 0) as [Hv|Hv]; simpl.
  - rewrite count_zeros_acc. simpl. exact IH.
  - pose proof (count_zeros_le l). apply Nat.eqb_neq. lia.
Qed.

Lemma isWinState_emptyBoard (state : list Z) : Client.isWinState state = emptyBoard state.
Proof. induction state as [|v l IH]; simpl; [reflexivity | now rewrite IH]. Qed.

Lemma emptyBoard_iff (board : list Z) :
  emptyBoard board = true <-> Forall (fun v => v = 0) board.
Proof.
  split; [apply emptyBoard_true|].
  induction 1 as [|v l Hv _ IH]; simpl; [reflexivity|].
  rewrite Hv. exact IH.
Qed.

(** X1.  The four tests for the terminal board agree: emptyBoard of the
    server, isWinState of the retry client, nimsum of client.go and
    allzeros of newClient.go return true exactly when every pile is 0
    (the board with no pile included). *)
Theorem terminal_tests_agree (board : list Z) :
  (emptyBoard board = true <-> Forall (fun v => v = 0) board) /\
  Client.isWinState board = emptyBoard board /\
  ClientGo.nimsum board = emptyBoard board /\
  NewClientGo.allzeros board = emptyBoard board.
Proof.
  split; [apply emptyBoard_iff|]. split; [apply isWinState_emptyBoard|].
  unfold ClientGo.nimsum, NewClientGo.allzeros. cbv zeta.
  rewrite count_zeros_full. now destruct (emptyBoard board).
Qed.

(** ** The coins on a board *)

Lemma coins_insert (board : list Z) (i : nat) (v w : Z) :
  board !! i = Some v -> coins (<[i := w]> board) = coins board - v + w.
Proof.
  revert i. induction board as [|x l IH]; intros [|i] Hi; simpl in *; try discriminate.
  - injection Hi as ->. unfold coins. simpl. lia.
  - unfold coins in *. simpl. rewrite (IH _ Hi). lia.
Qed.

Lemma coins_nonneg (board : list Z) : wf_board board -> 0 <= coins board.
Proof.
  induction 1 as [|v l Hv _ IH]; unfold coins in *; simpl; [lia|].
  unfold in_uint8 in Hv. lia.
Qed.

Lemma coins_zero (board : list Z) : emptyBoard board = true -> coins board = 0.
Proof.
  intros H. apply emptyBoard_true in H.
  induction H as [|v l Hv _ IH]; unfold coins in *; simpl; [reflexivity | lia].
Qed.

(** ** normalMove and bestMove: when they fail *)

Lemma normalMove_None (board : list Z) :
  wf_board board -> (normalMove board = None <-> emptyBoard board = true).
Proof.
  intros Hwf. split.
  - intros Hnone. destruct (emptyBoard board) eqn:Hempty; [reflexivity|].
    destruct (normalMove_found board Hwf Hempty) as (i & v & _ & _ & _ & Hmove).
    congruence.
  - intros Hempty. unfold normalMove.
    destruct (list_find (fun v => 0 < v) board) as [[i v]|] eqn:Hfind; [|reflexivity].
    apply list_find_Some in Hfind. destruct Hfind as (Hi & Hpos & _).
    apply emptyBoard_true in Hempty. rewrite Forall_lookup in Hempty.
    specialize (Hempty i v Hi). simpl in Hempty. lia.
Qed.

Lemma nimSum_empty (board : list Z) : emptyBoard board = true -> nimSum board = 0.
Proof.
  intros H. apply emptyBoard_true in H.
  induction H as [|v l Hv _ IH]; [reflexivity|].
  rewrite nimSum_cons, IH, Hv. reflexivity.
Qed.

(** X2.  normalMove fails with its error exactly on the boards without a
    coin.  On every other board it takes one coin from the first pile
    that has one: the piles before it are 0, the row it reports is that
    pile's index as int8, the amount is 1, the other piles are as they
    were and the board has one coin less. *)
Theorem normalMove_spec (board : list Z) :
  wf_board board ->
  (normalMove board = None <-> emptyBoard board = true) /\
  (emptyBoard board = false ->
   exists i v,
     board !! i = Some v /\ 0 < v /\
     (forall j y, board !! j = Some y -> (j < i)%nat -> y = 0) /\
     normalMove board =
       Some (mkMsg (Some (<[i := v - 1]> board)) (int8 (Z.of_nat i)) 1) /\
     coins (<[i := v - 1]> board) = coins board - 1).
Proof.
  intros Hwf. split; [now apply normalMove_None|].
  intros Hne.
  destruct (normalMove_found board Hwf Hne) as (i & v & Hi & Hpos & Hfirst & Hmove).
  exists i, v. repeat split; try assumption.
  rewrite (coins_insert _ _ _ _ Hi). lia.
Qed.

Lemma normalMove_spec_witness :
  wf_board [0; 0; 3; 2] /\
  (normalMove [0; 0; 3; 2] = None <-> emptyBoard [0; 0; 3; 2] = true) /\
  (emptyBoard [0; 0; 3; 2] = false ->
   exists i v,
     [0; 0; 3; 2] !! i = Some v /\ 0 < v /\
     (forall j y, [0; 0; 3; 2] !! j = Some y -> (j < i)%nat -> y = 0) /\
     normalMove [0; 0; 3; 2] =
       Some (mkMsg (Some (<[i := v - 1]> [0; 0; 3; 2])) (int8 (Z.of_nat i)) 1) /\
     coins (<[i := v - 1]> [0; 0; 3; 2]) = coins [0; 0; 3; 2] - 1).
Proof.
  split; [wf_board_tac|].
  apply (normalMove_spec [0; 0; 3; 2]). wf_board_tac.
Defined.

(** X3.  bestMove ends the process, with exit code 1, exactly on the
    boards without a coin, and never panics; on a board with zero nim-sum
    and a coin its move is normalMove's. *)
Theorem bestMove_failure (board : list Z) :
  wf_board board ->
  (bestMove board = Exit 1 <-> emptyBoard board = true) /\
  (emptyBoard board = false -> exists m, bestMove board = Ok m) /\
  (nimSum board = 0 -> emptyBoard board = false ->
   exists m, normalMove board = Some m /\ bestMove board = Ok m).
Proof.
  intros Hwf.
  assert (nimSum board = 0 -> emptyBoard board = false ->
          exists m, normalMove board = Some m /\ bestMove board = Ok m) as Hzero.
  { intros Hz Hne.
    destruct (normalMove_found board Hwf Hne) as (i & v & _ & _ & _ & Hmove).
    eexists. split; [exact Hmove|].
    unfold bestMove. cbv zeta. now rewrite Hz, Hmove. }
  assert (emptyBoard board = false -> exists m, bestMove board = Ok m) as Hok.
  { intros Hne. destruct (Z.eq_dec (nimSum board) 0) as [Hz|Hnz].
    - destruct (Hzero Hz Hne) as (m & _ & Hm). now exists m.
    - destruct (bestMove_found board Hwf Hnz) as (i & v & _ & _ & _ & Hm).
      eexists. exact Hm. }
  split; [|split; assumption].
  split.
  - intros Hexit. destruct (emptyBoard board) eqn:Hempty; [reflexivity|].
    destruct (Hok eq_refl) as (m & Hm). congruence.
  - intros Hempty.
    pose proof (nimSum_empty board Hempty) as Hz.
    unfold bestMove. cbv zeta. rewrite Hz. simpl.
    now rewrite (proj2 (normalMove_None board Hwf) Hempty).
Qed.

Lemma bestMove_failure_witness :
  wf_board [0; 0; 0] /\
  (bestMove [0; 0; 0] = Exit 1 <-> emptyBoard [0; 0; 0] = true) /\
  (emptyBoard [0; 0; 0] = false -> exists m, bestMove [0; 0; 0] = Ok m) /\
  (nimSum [0; 0; 0] = 0 -> emptyBoard [0; 0; 0] = false ->
   exists m, normalMove [0; 0; 0] = Some m /\ bestMove [0; 0; 0] = Ok m).
Proof.
  split; [wf_board_tac|].
  apply (bestMove_failure [0; 0; 0]). wf_board_tac.
Defined.

(** ** Play: always a reply *)

Lemma uint8_int8 (x : Z) : uint8 (int8 x) = uint8 x.
Proof.
  unfold uint8, int8. cbv zeta.
  destruct (Z.ltb_spec (x mod 256) 128).
  - apply Z.mod_mod. lia.
  - rewrite <- (Z.mod_mod x 256) at 2 by lia.
    rewrite <- (Z_mod_plus_full (x mod 256 - 256) 1 256). f_equal. lia.
Qed.

(** The move Play makes on a board with a coin: one pile lowered, its
    index and the difference reported through int8. *)
Lemma Play_shape (move : StateMoveMessage) (mode : Z) :
  wf_board (board_of (GameState move)) ->
  emptyBoard (board_of (GameState move)) = false ->
  exists i v w,
    board_of (GameState move) !! i = Some v /\ 0 <= w < v /\
    Play move mode =
      Ok (mkMsg (Some (<[i := w]> (board_of (GameState move))))
                (int8 (Z.of_nat i)) (int8 (v - w))).
Proof.
  intros Hwf Hne.
  destruct (normalMove_found _ Hwf Hne) as (i & v & Hi & Hpos & _ & Hnormal).
  assert (int8 (v - (v - 1)) = 1) as Hone
    by (replace (v - (v - 1)) with 1 by lia; reflexivity).
  unfold Play. cbv zeta. rewrite Hne.
  destruct (mode =? 1).
  - destruct (Z.eq_dec (nimSum (board_of (GameState move))) 0) as [Hz|Hnz].
    + unfold bestMove. cbv zeta. rewrite Hz, Hnormal. simpl.
      exists i, v, (v - 1). rewrite Hone. split; [exact Hi|]. split; [lia | reflexivity].
    + destruct (bestMove_found _ Hwf Hnz) as (k & u & Hk & Hlt & _ & Hbest).
      pose proof (nimSum_uint8 _ Hwf) as HS.
      assert (in_uint8 u) as Hu.
      { unfold wf_board in Hwf. rewrite Forall_lookup in Hwf. exact (Hwf k u Hk). }
      pose proof (lxor_uint8 _ _ HS Hu) as Htmp.
      exists k, u, (Z.lxor (nimSum (board_of (GameState move))) u).
      split; [exact Hk|]. split; [unfold in_uint8 in *; lia|].
      rewrite Hbest. rewrite uint8_small by (unfold in_uint8 in *; lia). reflexivity.
  - rewrite Hnormal.
    exists i, v, (v - 1). rewrite Hone. split; [exact Hi|]. split; [lia | reflexivity].
Qed.

(** X4.  On every well-typed board Play returns a reply; it neither exits
    nor panics.  On a board without a coin the reply is the resignation
    (absent board, row -2, amount -2).  On any other board, under either
    mode, the reply lowers exactly one pile, reports that pile's index and
    the difference through int8, and has strictly fewer coins. *)
Theorem Play_total (move : StateMoveMessage) (mode : Z) :
  wf_board (board_of (GameState move)) ->
  exists reply,
    Play move mode = Ok reply /\
    (emptyBoard (board_of (GameState move)) = true -> reply = mkMsg None (-2) (-2)) /\
    (emptyBoard (board_of (GameState move)) = false ->
     exists i v w,
       board_of (GameState move) !! i = Some v /\ 0 <= w < v /\
       reply = mkMsg (Some (<[i := w]> (board_of (GameState move))))
                     (int8 (Z.of_nat i)) (int8 (v - w)) /\
       coins (board_of (GameState reply)) < coins (board_of (GameState move))).
Proof.
  intros Hwf.
  destruct (emptyBoard (board_of (GameState move))) eqn:Hempty.
  - eexists. split; [now apply Play_empty|]. split; [reflexivity | discriminate].
  - destruct (Play_shape move mode Hwf Hempty) as (i & v & w & Hi & Hw & Hplay).
    eexists. split; [exact Hplay|]. split; [discriminate|].
    intros _. exists i, v, w. split; [exact Hi|]. split; [exact Hw|].
    split; [reflexivity|]. simpl. rewrite (coins_insert _ _ _ _ Hi). lia.
Qed.

Lemma Play_total_witness :
  wf_board (board_of (GameState (mkMsg (Some [0; 9; 1; 5]) 0 1))) /\
  exists reply,
    Play (mkMsg (Some [0; 9; 1; 5]) 0 1) 1 = Ok reply /\
    (emptyBoard (board_of (GameState (mkMsg (Some [0; 9; 1; 5]) 0 1))) = true ->
     reply = mkMsg None (-2) (-2)) /\
    (emptyBoard (board_of (GameState (mkMsg (Some [0; 9; 1; 5]) 0 1))) = false ->
     exists i v w,
       board_of (GameState (mkMsg (Some [0; 9; 1; 5]) 0 1)) !! i = Some v /\ 0 <= w < v /\
       reply = mkMsg (Some (<[i := w]> (board_of (GameState (mkMsg (Some [0; 9; 1; 5]) 0 1)))))
                     (int8 (Z.of_nat i)) (int8 (v - w)) /\
       coins (board_of (GameState reply)) <
       coins (board_of (GameState (mkMsg (Some [0; 9; 1; 5]) 0 1)))).
Proof.
  assert (wf_board (board_of (GameState (mkMsg (Some [0; 9; 1; 5]) 0 1)))) as Hwf
    by (simpl; wf_board_tac).
  split; [exact Hwf|].
  exact (Play_total (mkMsg (Some [0; 9; 1; 5]) 0 1) 1 Hwf).
Defined.

(** ** What CheckMove accepts *)

(** X5.  CheckMove accepts every move that lowers one pile below 128 by a
    positive amount and declares that pile and that amount; and it
    accepts no move that changes a pile of 128 coins or more: such a pile
    can never be played. *)
Theorem CheckMove_legal_moves (previous : StateMoveMessage) (i : nat) (v : Z) :
  wf_board (board_of (GameState previous)) ->
  board_of (GameState previous) !! i = Some v ->
  (v < 128 ->
   forall c, 0 < c <= v ->
     CheckMove (mkMsg (Some (<[i := v - c]> (board_of (GameState previous))))
                      (Z.of_nat i) c) previous = true) /\
  (128 <= v ->
   forall incmove x,
     in_int8 (MoveCount incmove) ->
     board_of (GameState incmove) !! i = Some x -> x <> v ->
     CheckMove incmove previous = false).
Proof.
  intros Hwf Hi. split.
  - intros Hv c Hc.
    replace c with (v - (v - c)) at 2 by lia.
    apply CheckMove_single_pile with (board := board_of (GameState previous));
      try assumption; try reflexivity. lia.
  - intros Hv incmove x Hc Hx Hne.
    destruct (CheckMove incmove previous) eqn:Hchk; [exfalso | reflexivity].
    apply CheckMove_spec in Hchk; [|exact Hwf|exact Hc].
    destruct Hchk as (_ & _ & Hall).
    destruct (Hall i x v Hx Hi) as [|(_ & _ & ? & _)]; [contradiction | lia].
Qed.

Lemma CheckMove_legal_moves_witness :
  wf_board (board_of (GameState (mkMsg (Some [1; 9; 200]) (-1) 7))) /\
  board_of (GameState (mkMsg (Some [1; 9; 200]) (-1) 7)) !! 1%nat = Some 9 /\
  9 < 128 /\ 0 < 4 <= 9 /\
  CheckMove (mkMsg (Some (<[1%nat := 9 - 4]>
                            (board_of (GameState (mkMsg (Some [1; 9; 200]) (-1) 7)))))
                   (Z.of_nat 1) 4)
            (mkMsg (Some [1; 9; 200]) (-1) 7) = true.
Proof.
  assert (wf_board (board_of (GameState (mkMsg (Some [1; 9; 200]) (-1) 7)))) as Hwf
    by (simpl; wf_board_tac).
  split; [exact Hwf|]. split; [reflexivity|]. split; [lia|]. split; [lia|].
  apply (proj1 (CheckMove_legal_moves (mkMsg (Some [1; 9; 200]) (-1) 7) 1 9 Hwf eq_refl));
    lia.
Defined.

(** ** The client's check of a reply *)

(** When the reply's board covers the state and every pile passes, the
    check returns true. *)
Lemma successor_from_all_ok (move : StateMoveMessage) (state : list Z) (idx : nat) :
  (idx + length state <= length (board_of (GameState move)))%nat ->
  (forall j elm g,
      state !! j = Some elm ->
      board_of (GameState move) !! (idx + j)%nat = Some g ->
      pile_passes move (idx + j) elm g = true) ->
  Client.successor_from idx state move = Ok true.
Proof.
  revert idx. induction state as [|elm rest IH]; intros idx Hlen Hall; [reflexivity|].
  simpl in Hlen.
  destruct (lookup_lt_is_Some_2 (board_of (GameState move)) idx ltac:(lia)) as [g Hg].
  pose proof (Hall 0%nat elm g eq_refl) as H0.
  rewrite Nat.add_0_r in H0. specialize (H0 Hg).
  assert (Client.successor_from (S idx) rest move = Ok true) as Hrest.
  { apply IH; [lia|].
    intros j e g' He Hg'.
    replace (S idx + j)%nat with (idx + S j)%nat in * by lia.
    apply (Hall (S j) e g'); [exact He | exact Hg']. }
  unfold pile_passes in H0. simpl. rewrite Hg.
  destruct (Z.of_nat idx =? MoveRow move); rewrite H0; simpl; exact Hrest.
Qed.

(** The message that names pile i of a board and the amount taken from it
    passes the client's check against that board, when i fits int8. *)
Lemma single_pile_reply_valid (board : list Z) (i : nat) (v w : Z) :
  wf_board board -> board !! i = Some v -> 0 <= w < v -> (i < 128)%nat ->
  Client.isValidSuccessor board
    (mkMsg (Some (<[i := w]> board)) (int8 (Z.of_nat i)) (int8 (v - w))) = Ok true.
Proof.
  intros Hwf Hi Hw Hsmall.
  assert (in_uint8 v) as Hv.
  { unfold wf_board in Hwf. rewrite Forall_lookup in Hwf. exact (Hwf i v Hi). }
  unfold Client.isValidSuccessor.
  apply successor_from_all_ok; simpl; [rewrite length_insert; lia|].
  intros j elm g He Hg. unfold pile_passes. simpl.
  rewrite (int8_small (Z.of_nat i)) by lia.
  destruct (Z.eqb_spec (Z.of_nat j) (Z.of_nat i)) as [Hji|Hji].
  - apply Nat2Z.inj in Hji. subst j.
    rewrite Hi in He. injection He as <-.
    rewrite list_lookup_insert_eq in Hg by (now apply lookup_lt_Some in Hi).
    injection Hg as <-.
    rewrite uint8_int8. unfold in_uint8 in Hv.
    rewrite (uint8_small (v - w)) by (unfold in_uint8; lia).
    apply Z.eqb_eq. replace (v - (v - w)) with w by lia.
    apply uint8_small. unfold in_uint8. lia.
  - rewrite list_lookup_insert_ne in Hg by (intros ->; now apply Hji).
    apply Z.eqb_eq. congruence.
Qed.

(** X6.  The retry client accepts the server's counter-move: for every
    well-typed board with a coin and at most 128 piles, the reply Play
    makes to it, under either mode, passes isValidSuccessor against that
    board. *)
Theorem reply_accepted_by_client (move reply : StateMoveMessage) (mode : Z) :
  wf_board (board_of (GameState move)) ->
  emptyBoard (board_of (GameState move)) = false ->
  (length (board_of (GameState move)) <= 128)%nat ->
  Play move mode = Ok reply ->
  Client.isValidSuccessor (board_of (GameState move)) reply = Ok true.
Proof.
  intros Hwf Hne Hlen Hplay.
  destruct (Play_shape move mode Hwf Hne) as (i & v & w & Hi & Hw & Hshape).
  rewrite Hplay in Hshape. injection Hshape as ->.
  apply single_pile_reply_valid; try assumption.
  apply lookup_lt_Some in Hi. lia.
Qed.

Lemma reply_accepted_by_client_witness :
  wf_board (board_of (GameState (mkMsg (Some [0; 9; 1; 5]) 0 1))) /\
  emptyBoard (board_of (GameState (mkMsg (Some [0; 9; 1; 5]) 0 1))) = false /\
  le (length (board_of (GameState (mkMsg (Some [0; 9; 1; 5]) 0 1)))) 128 /\
  Play (mkMsg (Some [0; 9; 1; 5]) 0 1) 1 = Ok (mkMsg (Some [0; 4; 1; 5]) 1 5) /\
  Client.isValidSuccessor (board_of (GameState (mkMsg (Some [0; 9; 1; 5]) 0 1)))
                          (mkMsg (Some [0; 4; 1; 5]) 1 5) = Ok true.
Proof.
  assert (wf_board (board_of (GameState (mkMsg (Some [0; 9; 1; 5]) 0 1)))) as Hwf
    by (simpl; wf_board_tac).
  assert (Play (mkMsg (Some [0; 9; 1; 5]) 0 1) 1 = Ok (mkMsg (Some [0; 4; 1; 5]) 1 5))
    as Hplay by (vm_compute; reflexivity).
  split; [exact Hwf|]. split; [reflexivity|]. split; [simpl; lia|].
  split; [exact Hplay|].
  apply (reply_accepted_by_client (mkMsg (Some [0; 9; 1; 5]) 0 1)
           (mkMsg (Some [0; 4; 1; 5]) 1 5) 1 Hwf eq_refl); [simpl; lia | exact Hplay].
Defined.

(** X7.  The two validators compared: a move that the server's CheckMove
    accepts and that changes the board also passes the client's
    isValidSuccessor against the same previous board. *)
Theorem CheckMove_implies_isValidSuccessor (incmove lastmove : StateMoveMessage) :
  wf_board (board_of (GameState lastmove)) ->
  in_int8 (MoveCount incmove) ->
  CheckMove incmove lastmove = true ->
  board_of (GameState incmove) <> board_of (GameState lastmove) ->
  Client.isValidSuccessor (board_of (GameState lastmove)) incmove = Ok true.
Proof.
  intros Hwf Hc Hchk Hchanged.
  apply CheckMove_spec in Hchk; [|exact Hwf|exact Hc].
  destruct Hchk as (Hlen & Hrow & Hall).
  unfold Client.isValidSuccessor.
  apply successor_from_all_ok; simpl; [lia|].
  intros j elm g He Hg. unfold pile_passes.
  assert (in_uint8 elm) as Helm.
  { unfold wf_board in Hwf. rewrite Forall_lookup in Hwf. exact (Hwf j elm He). }
  destruct (Z.eqb_spec (Z.of_nat j) (MoveRow incmove)) as [Hj|Hj].
  - destruct (Hall j g elm Hg He) as [Hsame|(_ & Hamt & Hsmall & Hnew)].
    + exfalso. apply Hchanged. apply list_eq. intros i.
      destruct (board_of (GameState incmove) !! i) as [x|] eqn:Hx.
      * destruct (board_of (GameState lastmove) !! i) as [y|] eqn:Hy.
        -- destruct (Hall i x y Hx Hy) as [->|(Hi & _)]; [reflexivity|].
           assert (i = j) as -> by lia. congruence.
        -- apply lookup_lt_Some in Hx. apply lookup_ge_None in Hy. lia.
      * symmetry. apply lookup_ge_None. apply lookup_ge_None in Hx. lia.
    + unfold in_int8 in Hc. unfold in_uint8 in Helm.
      rewrite (uint8_small (MoveCount incmove)) by (unfold in_uint8; lia).
      rewrite uint8_small by (unfold in_uint8; lia).
      apply Z.eqb_eq. lia.
  - destruct (Hall j g elm Hg He) as [->|(Hrowj & _)]; [apply Z.eqb_refl | contradiction].
Qed.

Lemma CheckMove_implies_isValidSuccessor_witness :
  wf_board (board_of (GameState (mkMsg (Some [1; 9; 1; 5]) (-1) 7))) /\
  in_int8 (MoveCount (mkMsg (Some [1; 5; 1; 5]) 1 4)) /\
  CheckMove (mkMsg (Some [1; 5; 1; 5]) 1 4) (mkMsg (Some [1; 9; 1; 5]) (-1) 7) = true /\
  board_of (GameState (mkMsg (Some [1; 5; 1; 5]) 1 4)) <>
  board_of (GameState (mkMsg (Some [1; 9; 1; 5]) (-1) 7)) /\
  Client.isValidSuccessor (board_of (GameState (mkMsg (Some [1; 9; 1; 5]) (-1) 7)))
                          (mkMsg (Some [1; 5; 1; 5]) 1 4) = Ok true.
Proof.
  assert (wf_board (board_of (GameState (mkMsg (Some [1; 9; 1; 5]) (-1) 7)))) as Hwf
    by (simpl; wf_board_tac).
  assert (in_int8 (MoveCount (mkMsg (Some [1; 5; 1; 5]) 1 4))) as Hc
    by (unfold in_int8; simpl; lia).
  assert (board_of (GameState (mkMsg (Some [1; 5; 1; 5]) 1 4)) <>
          board_of (GameState (mkMsg (Some [1; 9; 1; 5]) (-1) 7))) as Hne
    by (simpl; discriminate).
  split; [exact Hwf|]. split; [exact Hc|]. split; [reflexivity|]. split; [exact Hne|].
  apply (CheckMove_implies_isValidSuccessor _ _ Hwf Hc eq_refl Hne).
Defined.

(** ** The retry client's strategy *)

Lemma list_find_agree {A : Type} (P Q : A -> Prop)
      `{!forall x, Decision (P x)} `{!forall x, Decision (Q x)} (l : list A) :
  Forall (fun x => P x <-> Q x) l -> list_find P l = list_find Q l.
Proof.
  induction 1 as [|x l Hx _ IH]; simpl; [reflexivity|].
  destruct (decide (P x)) as [HP|HP], (decide (Q x)) as [HQ|HQ];
    try reflexivity; try (exfalso; tauto).
  now rewrite IH.
Qed.

Lemma bestMove_empty (board : list Z) :
  wf_board board -> emptyBoard board = true -> bestMove board = Exit 1.
Proof.
  intros Hwf Hempty. unfold bestMove. cbv zeta.
  rewrite (nimSum_empty board Hempty). simpl.
  now rewrite (proj2 (normalMove_None board Hwf) Hempty).
Qed.

(** decideMove and bestMove are one function on well-typed boards. *)
Lemma decideMove_bestMove (state : list Z) :
  wf_board state -> Client.decideMove state = bestMove state.
Proof.
  intros Hwf. unfold Client.decideMove, bestMove, normalMove. cbv zeta.
  fold (nimSum state).
  pose proof (nimSum_uint8 _ Hwf) as HS.
  pose proof Hwf as Hall. unfold wf_board in Hall. rewrite Forall_lookup in Hall.
  destruct (Z.eqb_spec (nimSum state) 0) as [Hz|Hnz]; simpl.
  - rewrite (list_find_agree (fun elm => elm <> 0) (fun v => 0 < v) state).
    + now destruct (list_find (fun v => 0 < v) state) as [[i v]|].
    + eapply Forall_impl; [exact Hwf|]. intros x Hx. unfold in_uint8 in Hx. simpl. lia.
  - rewrite (list_find_agree (fun elm => elm >= Z.lxor elm (nimSum state))
                             (fun v => Z.lxor (nimSum state) v <= v) state).
    + destruct (list_find (fun v => Z.lxor (nimSum state) v <= v) state)
        as [[i v]|] eqn:Hfind.
      * apply list_find_Some in Hfind. destruct Hfind as (Hi & Hle & _).
        pose proof (Hall i v Hi) as Hv.
        pose proof (lxor_uint8 _ _ HS Hv) as Htmp.
        rewrite (Z.lxor_comm v (nimSum state)).
        unfold in_uint8 in *.
        rewrite (uint8_small (v - Z.lxor (nimSum state) v)) by (unfold in_uint8; lia).
        replace (v - (v - Z.lxor (nimSum state) v)) with (Z.lxor (nimSum state) v) by lia.
        rewrite (uint8_small (Z.lxor (nimSum state) v)) by (unfold in_uint8; lia).
        reflexivity.
      * exfalso. destruct (reducing_pile_exists state Hwf Hnz) as (w & Hw & Hlt).
        apply list_find_None in Hfind. rewrite Forall_forall in Hfind.
        apply (Hfind w Hw). lia.
    + apply Forall_forall. intros x _. rewrite (Z.lxor_comm x). lia.
Qed.

(** X8.  The retry client and the optimal server play the same strategy:
    on every well-typed board decideMove and bestMove give the same
    outcome, the same move or the exit with code 1 on a board without a
    coin. *)
Theorem decideMove_is_bestMove (state : list Z) :
  wf_board state ->
  Client.decideMove state = bestMove state /\
  (emptyBoard state = true -> Client.decideMove state = Exit 1) /\
  (emptyBoard state = false -> exists m, Client.decideMove state = Ok m).
Proof.
  intros Hwf. pose proof (decideMove_bestMove state Hwf) as Heq.
  split; [exact Heq|]. rewrite Heq. split.
  - now apply bestMove_empty.
  - intros Hne.
    destruct (Play_shape (mkMsg (Some state) 0 0) 1 Hwf Hne) as (i & v & w & _ & _ & Hplay).
    unfold Play in Hplay. simpl in Hplay. rewrite Hne in Hplay.
    eexists. exact Hplay.
Qed.

Lemma decideMove_is_bestMove_witness :
  wf_board [1; 9; 1; 5] /\
  Client.decideMove [1; 9; 1; 5] = bestMove [1; 9; 1; 5] /\
  (emptyBoard [1; 9; 1; 5] = true -> Client.decideMove [1; 9; 1; 5] = Exit 1) /\
  (emptyBoard [1; 9; 1; 5] = false -> exists m, Client.decideMove [1; 9; 1; 5] = Ok m).
Proof.
  split; [wf_board_tac|].
  apply (decideMove_is_bestMove [1; 9; 1; 5]). wf_board_tac.
Defined.

(** The move the client decides on: one pile lowered, named and counted. *)
Lemma decideMove_shape (state : list Z) (sendMove : StateMoveMessage) :
  wf_board state -> Client.decideMove state = Ok sendMove ->
  emptyBoard state = false /\
  exists k v w,
    state !! k = Some v /\ 0 <= w < v /\
    sendMove = mkMsg (Some (<[k := w]> state)) (int8 (Z.of_nat k)) (int8 (v - w)).
Proof.
  intros Hwf Hmove. rewrite (decideMove_bestMove state Hwf) in Hmove.
  destruct (emptyBoard state) eqn:Hempty.
  - rewrite (bestMove_empty state Hwf Hempty) in Hmove. discriminate.
  - split; [reflexivity|].
    destruct (Play_shape (mkMsg (Some state) 0 0) 1 Hwf Hempty) as (k & v & w & Hk & Hw & Hplay).
    unfold Play in Hplay. simpl in Hplay. rewrite Hempty in Hplay.
    rewrite Hmove in Hplay. injection Hplay as ->.
    exists k, v, w. split; [exact Hk|]. split; [exact Hw | reflexivity].
Qed.

Lemma copy_same_length (dst src : list Z) :
  length src = length dst -> Client.copy dst src = src.
Proof.
  intros Hlen. unfold Client.copy.
  rewrite <- Hlen, firstn_all. rewrite Hlen, drop_all. apply app_nil_r.
Qed.

(** X9.  After the client has moved, a late copy of the reply it moved
    from is not taken for the answer: if the board of P is the state the
    client decided on, with no pile above 128, and P is a GameStart echo
    (row below 0) or declares an amount >= 0, isValidSuccessor answers
    false for P against the state after the move, so the move is sent
    again. *)
Theorem stale_reply_rejected (state state' : list Z) (P sendMove : StateMoveMessage) :
  wf_board state -> Forall (fun v => v <= 128) state ->
  board_of (GameState P) = state ->
  in_int8 (MoveCount P) ->
  MoveRow P < 0 \/ 0 <= MoveCount P ->
  Client.turn state = Ok (sendMove, state') ->
  Client.isValidSuccessor state' P = Ok false /\
  (Client.isWinState state' = false ->
   Client.exchange state' (Some P) = Ok Client.Resend).
Proof.
  intros Hwf Hsmall HP Hc Hsign Hturn.
  unfold Client.turn in Hturn.
  destruct (Client.decideMove state) as [m| |] eqn:Hmove; try discriminate.
  injection Hturn as <- <-.
  destruct (decideMove_shape state m Hwf Hmove) as (_ & k & v & w & Hk & Hw & ->).
  simpl. rewrite copy_same_length by (now rewrite length_insert).
  rewrite Forall_lookup in Hsmall. pose proof (Hsmall k v Hk) as Hv. simpl in Hv.
  assert (Client.isValidSuccessor (<[k := w]> state) P = Ok false) as Hrej.
  { unfold Client.isValidSuccessor. apply successor_from_some_fails.
    exists k, w, v. simpl. rewrite HP.
    split; [apply list_lookup_insert_eq; now apply lookup_lt_Some in Hk|].
    split; [exact Hk|].
    unfold pile_passes.
    destruct (Z.eqb_spec (Z.of_nat k) (MoveRow P)) as [Hrow|Hrow].
    - apply Z.eqb_neq. unfold in_int8 in Hc.
      assert (0 <= MoveCount P) as Hpos by lia.
      rewrite (uint8_small (MoveCount P)) by (unfold in_uint8; lia).
      unfold uint8.
      destruct (Z.le_gt_cases (MoveCount P) w) as [Hle|Hgt].
      + rewrite Z.mod_small by lia. lia.
      + replace (w - MoveCount P) with (w - MoveCount P + 256 + (-1) * 256) by lia.
        rewrite Z_mod_plus_full, Z.mod_small by lia. lia.
    - apply Z.eqb_neq. lia. }
  split; [exact Hrej|].
  intros Hnot. unfold Client.exchange. now rewrite Hnot, Hrej.
Qed.

Lemma stale_reply_rejected_witness :
  wf_board [1; 9; 1; 5] /\ Forall (fun v => v <= 128) [1; 9; 1; 5] /\
  board_of (GameState (mkMsg (Some [1; 9; 1; 5]) (-1) 7)) = [1; 9; 1; 5] /\
  in_int8 (MoveCount (mkMsg (Some [1; 9; 1; 5]) (-1) 7)) /\
  Client.turn [1; 9; 1; 5] = Ok (mkMsg (Some [1; 5; 1; 5]) 1 4, [1; 5; 1; 5]) /\
  Client.isValidSuccessor [1; 5; 1; 5] (mkMsg (Some [1; 9; 1; 5]) (-1) 7) = Ok false /\
  (Client.isWinState [1; 5; 1; 5] = false ->
   Client.exchange [1; 5; 1; 5] (Some (mkMsg (Some [1; 9; 1; 5]) (-1) 7)) = Ok Client.Resend).
Proof.
  assert (wf_board [1; 9; 1; 5]) as Hwf by wf_board_tac.
  assert (Forall (fun v => v <= 128) [1; 9; 1; 5]) as Hsmall
    by (repeat first [apply List.Forall_nil | apply List.Forall_cons; [lia|]]).
  assert (in_int8 (MoveCount (mkMsg (Some [1; 9; 1; 5]) (-1) 7))) as Hc
    by (unfold in_int8; simpl; lia).
  assert (Client.turn [1; 9; 1; 5] = Ok (mkMsg (Some [1; 5; 1; 5]) 1 4, [1; 5; 1; 5]))
    as Hturn by (vm_compute; reflexivity).
  split; [exact Hwf|]. split; [exact Hsmall|]. split; [reflexivity|].
  split; [exact Hc|]. split; [exact Hturn|].
  apply (stale_reply_rejected [1; 9; 1; 5] [1; 5; 1; 5]
           (mkMsg (Some [1; 9; 1; 5]) (-1) 7) (mkMsg (Some [1; 5; 1; 5]) 1 4)
           Hwf Hsmall eq_refl Hc); [left; simpl; lia | exact Hturn].
Defined.

(** ** Moves and the nim-sum *)

Lemma nimSum_single_change (board : list Z) (k : nat) (v w : Z) :
  board !! k = Some v -> w <> v -> nimSum (<[k := w]> board) <> nimSum board.
Proof.
  intros Hk Hne Heq. rewrite (nimSum_insert _ _ _ _ Hk) in Heq.
  apply Hne. symmetry. apply Z.lxor_eq.
  assert (Z.lxor v w = Z.lxor (nimSum board) (Z.lxor (nimSum board) (Z.lxor v w))) as ->
    by xor_bits.
  rewrite Heq. apply Z.lxor_nilpotent.
Qed.

(** An accepted move that changes the board changes the declared row, and
    only it. *)
Lemma CheckMove_changed_row (incmove lastmove : StateMoveMessage) :
  wf_board (board_of (GameState lastmove)) ->
  in_int8 (MoveCount incmove) ->
  CheckMove incmove lastmove = true ->
  board_of (GameState incmove) <> board_of (GameState lastmove) ->
  exists k x y,
    Z.of_nat k = MoveRow incmove /\
    board_of (GameState lastmove) !! k = Some y /\
    0 <= x < y /\ x = y - MoveCount incmove /\
    board_of (GameState incmove) = <[k := x]> (board_of (GameState lastmove)).
Proof.
  intros Hwf Hc Hchk Hchanged.
  apply CheckMove_spec in Hchk; [|exact Hwf|exact Hc].
  destruct Hchk as (Hlen & Hrow & Hall).
  set (k := Z.to_nat (MoveRow incmove)).
  assert (Z.of_nat k = MoveRow incmove) as Hk by (unfold k; lia).
  destruct (lookup_lt_is_Some_2 (board_of (GameState incmove)) k ltac:(lia)) as [x Hx].
  destruct (lookup_lt_is_Some_2 (board_of (GameState lastmove)) k ltac:(lia)) as [y Hy].
  assert (forall i a b,
             board_of (GameState incmove) !! i = Some a ->
             board_of (GameState lastmove) !! i = Some b -> i <> k -> a = b) as Hrest.
  { intros i a b Ha Hb Hik. destruct (Hall i a b Ha Hb) as [|(Hi & _)]; [assumption | lia]. }
  assert (board_of (GameState incmove) = <[k := x]> (board_of (GameState lastmove))) as Hb.
  { apply list_eq. intros i. destruct (Nat.eq_dec i k) as [->|Hik].
    - rewrite list_lookup_insert_eq by (now apply lookup_lt_Some in Hy). exact Hx.
    - rewrite list_lookup_insert_ne by (intros ->; now apply Hik).
      destruct (board_of (GameState incmove) !! i) as [a|] eqn:Ha.
      + destruct (board_of (GameState lastmove) !! i) as [b|] eqn:Hb.
        * f_equal. exact (Hrest i a b Ha Hb Hik).
        * apply lookup_lt_Some in Ha. apply lookup_ge_None in Hb. lia.
      + symmetry. apply lookup_ge_None. apply lookup_ge_None in Ha. lia. }
  exists k, x, y. split; [exact Hk|]. split; [exact Hy|].
  destruct (Hall k x y Hx Hy) as [Hsame|(_ & Hamt & _ & Hnew)].
  - exfalso. apply Hchanged. rewrite Hb, Hsame. now apply list_insert_id.
  - split; [lia|]. split; [exact Hnew | exact Hb].
Qed.

(** X10.  Every move that CheckMove accepts and that changes the board
    changes the nim-sum, and takes coins away: from a position of nim-sum
    0 no accepted move leads to a position of nim-sum 0 other than the
    pass that leaves the board as it was. *)
Theorem accepted_move_changes_nimSum (incmove lastmove : StateMoveMessage) :
  wf_board (board_of (GameState lastmove)) ->
  in_int8 (MoveCount incmove) ->
  CheckMove incmove lastmove = true ->
  board_of (GameState incmove) <> board_of (GameState lastmove) ->
  nimSum (board_of (GameState incmove)) <> nimSum (board_of (GameState lastmove)) /\
  coins (board_of (GameState incmove)) =
    coins (board_of (GameState lastmove)) - MoveCount incmove /\
  0 < MoveCount incmove.
Proof.
  intros Hwf Hc Hchk Hchanged.
  destruct (CheckMove_changed_row _ _ Hwf Hc Hchk Hchanged)
    as (k & x & y & _ & Hy & Hx & Hnew & ->).
  split; [apply (nimSum_single_change _ _ _ _ Hy); lia|].
  rewrite (coins_insert _ _ _ _ Hy). lia.
Qed.

Lemma accepted_move_changes_nimSum_witness :
  wf_board (board_of (GameState (mkMsg (Some [1; 5; 1; 5]) 1 4))) /\
  in_int8 (MoveCount (mkMsg (Some [1; 5; 1; 3]) 3 2)) /\
  CheckMove (mkMsg (Some [1; 5; 1; 3]) 3 2) (mkMsg (Some [1; 5; 1; 5]) 1 4) = true /\
  board_of (GameState (mkMsg (Some [1; 5; 1; 3]) 3 2)) <>
  board_of (GameState (mkMsg (Some [1; 5; 1; 5]) 1 4)) /\
  nimSum (board_of (GameState (mkMsg (Some [1; 5; 1; 3]) 3 2))) <>
  nimSum (board_of (GameState (mkMsg (Some [1; 5; 1; 5]) 1 4))) /\
  coins (board_of (GameState (mkMsg (Some [1; 5; 1; 3]) 3 2))) =
    coins (board_of (GameState (mkMsg (Some [1; 5; 1; 5]) 1 4))) -
    MoveCount (mkMsg (Some [1; 5; 1; 3]) 3 2) /\
  0 < MoveCount (mkMsg (Some [1; 5; 1; 3]) 3 2).
Proof.
  assert (wf_board (board_of (GameState (mkMsg (Some [1; 5; 1; 5]) 1 4)))) as Hwf
    by (simpl; wf_board_tac).
  assert (in_int8 (MoveCount (mkMsg (Some [1; 5; 1; 3]) 3 2))) as Hc
    by (unfold in_int8; simpl; lia).
  assert (board_of (GameState (mkMsg (Some [1; 5; 1; 3]) 3 2)) <>
          board_of (GameState (mkMsg (Some [1; 5; 1; 5]) 1 4))) as Hne
    by (simpl; discriminate).
  split; [exact Hwf|]. split; [exact Hc|]. split; [reflexivity|]. split; [exact Hne|].
  apply (accepted_move_changes_nimSum _ _ Hwf Hc eq_refl Hne).
Defined.

(** X11.  The optimal server hands back a position of nim-sum 0 exactly
    when it was given one of nonzero nim-sum: for every well-typed board
    with a coin, the board of Play's reply under mode 1 has nim-sum 0 if
    and only if the board it was given has a nonzero nim-sum. *)
Theorem Play_optimal_nimSum (move reply : StateMoveMessage) :
  wf_board (board_of (GameState move)) ->
  emptyBoard (board_of (GameState move)) = false ->
  Play move 1 = Ok reply ->
  (nimSum (board_of (GameState reply)) = 0 <-> nimSum (board_of (GameState move)) <> 0).
Proof.
  intros Hwf Hne Hplay.
  destruct (Z.eq_dec (nimSum (board_of (GameState move))) 0) as [Hz|Hnz].
  - destruct (Play_shape move 1 Hwf Hne) as (i & v & w & Hi & Hw & Hshape).
    rewrite Hplay in Hshape. injection Hshape as ->. simpl.
    pose proof (nimSum_single_change _ i v w Hi ltac:(lia)) as Hchg.
    rewrite Hz in *. split; [intros H; contradiction | intros H; now contradiction H].
  - destruct (bestMove_found _ Hwf Hnz) as (i & v & Hi & _ & _ & Hbest).
    unfold Play in Hplay. cbv zeta in Hplay. rewrite Hne in Hplay. simpl in Hplay.
    rewrite Hbest in Hplay. injection Hplay as <-. simpl.
    split; [intros _; exact Hnz|]. intros _.
    rewrite (nimSum_insert _ i v _ Hi). xor_bits.
Qed.

Lemma Play_optimal_nimSum_witness :
  wf_board (board_of (GameState (mkMsg (Some [0; 9; 1; 5]) 0 1))) /\
  emptyBoard (board_of (GameState (mkMsg (Some [0; 9; 1; 5]) 0 1))) = false /\
  Play (mkMsg (Some [0; 9; 1; 5]) 0 1) 1 = Ok (mkMsg (Some [0; 4; 1; 5]) 1 5) /\
  (nimSum (board_of (GameState (mkMsg (Some [0; 4; 1; 5]) 1 5))) = 0 <->
   nimSum (board_of (GameState (mkMsg (Some [0; 9; 1; 5]) 0 1))) <> 0).
Proof.
  assert (wf_board (board_of (GameState (mkMsg (Some [0; 9; 1; 5]) 0 1)))) as Hwf
    by (simpl; wf_board_tac).
  assert (Play (mkMsg (Some [0; 9; 1; 5]) 0 1) 1 = Ok (mkMsg (Some [0; 4; 1; 5]) 1 5))
    as Hplay by (vm_compute; reflexivity).
  split; [exact Hwf|]. split; [reflexivity|]. split; [exact Hplay|].
  apply (Play_optimal_nimSum _ _ Hwf eq_refl Hplay).
Defined.

(** ** A round between the retry client and the server *)

Lemma nimSum_nonzero_coin (board : list Z) : nimSum board <> 0 -> emptyBoard board = false.
Proof.
  intros Hnz. destruct (emptyBoard board) eqn:Hempty; [|reflexivity].
  now rewrite (nimSum_empty board Hempty) in Hnz.
Qed.

Lemma wf_board_insert (board : list Z) (i : nat) (v w : Z) :
  wf_board board -> board !! i = Some v -> 0 <= w <= v -> wf_board (<[i := w]> board).
Proof.
  intros Hwf Hi Hw. apply Forall_insert; [exact Hwf|].
  unfold wf_board in Hwf. rewrite Forall_lookup in Hwf.
  pose proof (Hwf i v Hi) as Hv. unfold in_uint8 in *. lia.
Qed.

Lemma Forall_below_insert (board : list Z) (i : nat) (v w b : Z) :
  Forall (fun u => u < b) board -> board !! i = Some v -> w <= v ->
  Forall (fun u => u < b) (<[i := w]> board).
Proof.
  intros Hall Hi Hw. apply Forall_insert; [exact Hall|].
  rewrite Forall_lookup in Hall. pose proof (Hall i v Hi) as Hv. simpl in Hv. lia.
Qed.

(** From a position of nonzero nim-sum: the client's move is accepted by
    the server and leaves nim-sum 0; either it was the last coin, or the
    server's reply is adopted and leaves a nonzero nim-sum again. *)
Lemma client_round_steps (state : list Z) (L : StateMoveMessage) (mode : Z) :
  wf_board state -> (length state <= 128)%nat -> Forall (fun v => v < 128) state ->
  nimSum state <> 0 -> board_of (GameState L) = state ->
  exists sendMove state',
    Client.turn state = Ok (sendMove, state') /\
    GameState sendMove = Some state' /\
    CheckMove sendMove L = true /\
    nimSum state' = 0 /\ coins state' < coins state /\
    (Client.isWinState state' = true ->
     forall recv, Client.exchange state' recv = Ok (Client.Won "client")) /\
    (Client.isWinState state' = false ->
     exists reply state'',
       Play sendMove mode = Ok reply /\
       Client.exchange state' (Some reply) = Ok (Client.Adopted state'') /\
       GameState reply = Some state'' /\
       nimSum state'' <> 0 /\ coins state'' < coins state' /\
       wf_board state'' /\ length state'' = length state /\
       Forall (fun v => v < 128) state'').
Proof.
  intros Hwf Hlen Hsmall Hnz HL.
  destruct (bestMove_found state Hwf Hnz) as (i & v & Hi & Hlt & _ & Hbest).
  pose proof (nimSum_uint8 _ Hwf) as HS.
  assert (in_uint8 v) as Hv8.
  { unfold wf_board in Hwf. rewrite Forall_lookup in Hwf. exact (Hwf i v Hi). }
  pose proof (lxor_uint8 _ _ HS Hv8) as Htmp.
  pose proof (lookup_lt_Some _ _ _ Hi) as Hidx.
  assert (v < 128) as Hv.
  { rewrite Forall_lookup in Hsmall. exact (Hsmall i v Hi). }
  set (tmp := Z.lxor (nimSum state) v) in *.
  set (state' := <[i := tmp]> state).
  assert (bestMove state = Ok (mkMsg (Some state') (Z.of_nat i) (v - tmp))) as Hmove.
  { rewrite Hbest. unfold in_uint8 in *.
    rewrite (int8_small (Z.of_nat i)) by lia.
    rewrite uint8_small by (unfold in_uint8; lia).
    rewrite int8_small by lia. reflexivity. }
  assert (wf_board state') as Hwf' by (apply (wf_board_insert _ _ v); unfold in_uint8 in *; [assumption|assumption|lia]).
  assert (length state' = length state) as Hlen' by apply length_insert.
  assert (Forall (fun u => u < 128) state') as Hsmall'
    by (apply (Forall_below_insert _ _ v); [assumption|assumption|lia]).
  assert (nimSum state' = 0) as Hzero.
  { unfold state', tmp. rewrite (nimSum_insert _ i v _ Hi). xor_bits. }
  exists (mkMsg (Some state') (Z.of_nat i) (v - tmp)), state'.
  split.
  { unfold Client.turn. rewrite (decideMove_bestMove state Hwf), Hmove. simpl.
    now rewrite copy_same_length. }
  split; [reflexivity|]. split.
  { apply CheckMove_single_pile with (board := state); try assumption.
    unfold in_uint8 in *. lia. }
  split; [exact Hzero|]. split.
  { unfold state'. rewrite (coins_insert _ _ _ _ Hi). lia. }
  split.
  { intros Hwin recv. unfold Client.exchange. now rewrite Hwin. }
  intros Hnot. rewrite isWinState_emptyBoard in Hnot.
  destruct (Play_shape (mkMsg (Some state') (Z.of_nat i) (v - tmp)) mode Hwf' Hnot)
    as (j & u & x & Hj & Hx & Hplay).
  simpl in Hj, Hplay.
  set (state'' := <[j := x]> state') in *.
  assert (nimSum state'' <> 0) as Hnz''.
  { rewrite <- Hzero. apply (nimSum_single_change _ _ u); [exact Hj | lia]. }
  exists (mkMsg (Some state'') (int8 (Z.of_nat j)) (int8 (u - x))), state''.
  split; [exact Hplay|]. split.
  { unfold Client.exchange. rewrite isWinState_emptyBoard, Hnot.
    unfold state''. rewrite (single_pile_reply_valid state' j u x Hwf' Hj Hx).
    - simpl. rewrite copy_same_length by (now rewrite length_insert).
      fold state''. rewrite isWinState_emptyBoard.
      now rewrite (nimSum_nonzero_coin _ Hnz'').
    - apply lookup_lt_Some in Hj. lia. }
  split; [reflexivity|]. split; [exact Hnz''|]. split.
  { unfold state''. rewrite (coins_insert _ _ _ _ Hj). lia. }
  split; [apply (wf_board_insert _ _ u); [assumption|assumption|lia]|].
  split; [unfold state''; rewrite length_insert; exact Hlen'|].
  apply (Forall_below_insert _ _ u); [assumption|assumption|lia].
Qed.

(** X12.  A round of the retry client against the server, from a
    well-typed position of nonzero nim-sum with at most 128 piles, none
    above 127.  The client's move is accepted by CheckMove against that
    position and leaves nim-sum 0.  If it took the last coin the client
    declares itself the winner.  Otherwise Play's reply, under either
    mode, is adopted by the client and leaves a position of nonzero
    nim-sum, of the same length and bounds, with fewer coins: the client
    never reads a terminal board, so it never declares the server the
    winner, and every round removes coins. *)
Theorem client_round (state : list Z) (L : StateMoveMessage) (mode : Z) :
  wf_board state -> (length state <= 128)%nat -> Forall (fun v => v < 128) state ->
  nimSum state <> 0 -> board_of (GameState L) = state ->
  exists sendMove state',
    Client.turn state = Ok (sendMove, state') /\
    GameState sendMove = Some state' /\
    CheckMove sendMove L = true /\
    nimSum state' = 0 /\ coins state' < coins state /\
    (Client.isWinState state' = true ->
     forall recv, Client.exchange state' recv = Ok (Client.Won "client")) /\
    (Client.isWinState state' = false ->
     exists reply state'',
       Play sendMove mode = Ok reply /\
       Client.exchange state' (Some reply) = Ok (Client.Adopted state'') /\
       GameState reply = Some state'' /\
       nimSum state'' <> 0 /\ coins state'' < coins state' /\
       wf_board state'' /\ length state'' = length state /\
       Forall (fun v => v < 128) state'').
Proof. exact (client_round_steps state L mode). Qed.

Lemma client_round_witness :
  wf_board [1; 9; 1; 5] /\ le (length [1; 9; 1; 5]) 128 /\
  Forall (fun v => v < 128) [1; 9; 1; 5] /\ nimSum [1; 9; 1; 5] <> 0 /\
  board_of (GameState (mkMsg (Some [1; 9; 1; 5]) (-1) 7)) = [1; 9; 1; 5] /\
  exists sendMove state',
    Client.turn [1; 9; 1; 5] = Ok (sendMove, state') /\
    GameState sendMove = Some state' /\
    CheckMove sendMove (mkMsg (Some [1; 9; 1; 5]) (-1) 7) = true /\
    nimSum state' = 0 /\ coins state' < coins [1; 9; 1; 5] /\
    (Client.isWinState state' = true ->
     forall recv, Client.exchange state' recv = Ok (Client.Won "client")) /\
    (Client.isWinState state' = false ->
     exists reply state'',
       Play sendMove 1 = Ok reply /\
       Client.exchange state' (Some reply) = Ok (Client.Adopted state'') /\
       GameState reply = Some state'' /\
       nimSum state'' <> 0 /\ coins state'' < coins state' /\
       wf_board state'' /\ length state'' = length [1; 9; 1; 5] /\
       Forall (fun v => v < 128) state'').
Proof.
  assert (wf_board [1; 9; 1; 5]) as Hwf by wf_board_tac.
  assert (Forall (fun v => v < 128) [1; 9; 1; 5]) as Hsmall
    by (repeat first [apply List.Forall_nil | apply List.Forall_cons; [lia|]]).
  assert (nimSum [1; 9; 1; 5] <> 0) as Hnz by (vm_compute; discriminate).
  split; [exact Hwf|]. split; [simpl; lia|]. split; [exact Hsmall|].
  split; [exact Hnz|]. split; [reflexivity|].
  apply (client_round [1; 9; 1; 5] (mkMsg (Some [1; 9; 1; 5]) (-1) 7) 1 Hwf);
    [simpl; lia | exact Hsmall | exact Hnz | reflexivity].
Defined.

(** ** The session tables along the server's loop *)

Lemma land_1_bit (seed : Z) : Z.land seed 1 = 0 \/ Z.land seed 1 = 1.
Proof.
  assert (Z.land seed 1 = seed mod 2) as ->.
  { change (Z.land seed 1) with (Z.land seed (Z.ones 1)).
    rewrite Z.land_ones by lia. reflexivity. }
  pose proof (Z.mod_pos_bound seed 2 ltac:(lia)). lia.
Qed.

Lemma game_board_wf (board : list Z) : game_board board -> wf_board board.
Proof.
  intros (_ & Hall). eapply Forall_impl; [exact Hall|].
  intros v Hv. unfold in_uint8. simpl in Hv. lia.
Qed.

(** Saving a good state for a client that has, or is given, a
    difficulty keeps the tables good. *)
Lemma tables_ok_save (tabs : Sessions) (a : string) (m : StateMoveMessage)
      (diffs : gmap string Z) :
  tables_ok tabs -> session_ok m ->
  (forall b d, diffs !! b = Some d -> d = 0 \/ d = 1) ->
  is_Some (diffs !! a) ->
  (forall b, is_Some (clientDifficulties tabs !! b) -> is_Some (diffs !! b)) ->
  tables_ok (mkSessions (<[a := m]> (clientGames tabs)) diffs).
Proof.
  intros (Hgames & _ & Hboth) Hm Hbits Ha Hkeep. split; [|split]; simpl.
  - intros b m' Hb. destruct (decide (a = b)) as [->|Hab].
    + rewrite lookup_insert_eq in Hb. now injection Hb as <-.
    + rewrite lookup_insert_ne in Hb by exact Hab. exact (Hgames b m' Hb).
  - exact Hbits.
  - intros b Hb. destruct (decide (a = b)) as [->|Hab]; [exact Ha|].
    rewrite lookup_insert_ne in Hb by exact Hab. apply Hkeep, Hboth, Hb.
Qed.

Section ServerInvariant.
Context {R : Rand} {HR : RandSpec R}.

(** The board of a new game: 3 to 16 piles of 1 to 10 coins, nim-sum not
    0. *)
Lemma GenerateBoard_drawn (seed : Z) :
  (3 <= length (GenerateBoard seed) <= 16)%nat /\
  Forall (fun v => 1 <= v <= 10) (GenerateBoard seed) /\
  nimSum (GenerateBoard seed) <> 0.
Proof.
  unfold GenerateBoard.
  pose proof (rand_Intn_range 14 (rand_Seed seed) ltac:(lia)) as Hr.
  destruct (rand_Intn 14 (rand_Seed seed)) as [r s]. simpl in Hr. cbv zeta.
  set (board := fill_rows (Z.to_nat (r + 3)) s).
  assert (length board = Z.to_nat (r + 3)) as Hlen by apply fill_rows_length.
  pose proof (fill_rows_range (Z.to_nat (r + 3)) s) as Hrange. fold board in Hrange.
  destruct (Z.eqb_spec (nimSum board) 0) as [Hz|Hnz];
    [|split; [lia | split; assumption]].
  set (last := Z.to_nat (r + 3 - 1)).
  assert (last < length board)%nat as Hlast by (unfold last; lia).
  pose proof (list_lookup_lookup_total_lt board last Hlast) as Hv.
  set (v := board !!! last) in *.
  assert (1 <= v <= 10) as Hvr.
  { rewrite Forall_lookup in Hrange. exact (Hrange last v Hv). }
  destruct (Z.ltb_spec v 10); rewrite uint8_small by (unfold in_uint8; lia);
    rewrite length_insert; (split; [lia|]);
    (split; [apply Forall_insert; [exact Hrange | lia]|]);
    rewrite <- Hz; apply (nimSum_single_change _ _ v); try exact Hv; lia.
Qed.

Lemma GenerateBoard_game_board (seed : Z) : game_board (GenerateBoard seed).
Proof.
  destruct (GenerateBoard_drawn seed) as (Hlen & Hall & _).
  split; [exact Hlen|].
  eapply Forall_impl; [exact Hall|]. intros v Hv. simpl in Hv. lia.
Qed.

(** One datagram: the loop goes on and the tables stay good. *)
Lemma serve_keeps_tables (tabs : Sessions) (raddrStr : string)
      (pkt : option StateMoveMessage) :
  tables_ok tabs ->
  (forall m, pkt = Some m -> wf_msg m) ->
  exists tabs' reply,
    serve raddrStr pkt tabs = Ok (tabs', reply) /\ tables_ok tabs'.
Proof.
  intros Hok Hpkt. destruct pkt as [m|]; [|exists tabs, None; split; [reflexivity | exact Hok]].
  destruct (Hpkt m eq_refl) as (Hwf & Hrow & Hcnt).
  pose proof Hok as (Hgames & Hbits & Hboth).
  unfold serve.
  destruct (isGameStart m) eqn:Hstart.
  - eexists _, _. split; [reflexivity|].
    apply tables_ok_save; try assumption.
    + split; [unfold in_int8; simpl; lia|]. split; [exact Hcnt|].
      simpl. apply GenerateBoard_game_board.
    + intros b d Hb. destruct (decide (raddrStr = b)) as [->|Hne].
      * rewrite lookup_insert_eq in Hb. injection Hb as <-. apply land_1_bit.
      * rewrite lookup_insert_ne in Hb by exact Hne. exact (Hbits b d Hb).
    + rewrite lookup_insert_eq. eauto.
    + intros b Hb. destruct (decide (raddrStr = b)) as [->|Hne].
      * rewrite lookup_insert_eq. eauto.
      * now rewrite lookup_insert_ne by exact Hne.
  - destruct (clientGames tabs !! raddrStr) as [lastMove|] eqn:Hlast;
      [|exists tabs, None; split; [reflexivity | exact Hok]].
    pose proof (Hgames raddrStr lastMove Hlast) as HokL.
    assert (is_Some (clientDifficulties tabs !! raddrStr)) as Hdiff
      by (apply Hboth; rewrite Hlast; eauto).
    destruct (CheckMove m lastMove) eqn:Hchk; simpl.
    + destruct HokL as (_ & _ & HboardL).
      apply CheckMove_true in Hchk as Hguards. destruct Hguards as (Hlen & Hrange & _).
      destruct (GameState lastMove) as [bL|] eqn:HbL; [|simpl in Hlen; lia].
      destruct HboardL as (HlenL & HallL).
      assert (wf_board (board_of (GameState lastMove))) as HwfL.
      { rewrite HbL. simpl. apply game_board_wf. split; assumption. }
      apply CheckMove_spec in Hchk; [|exact HwfL|exact Hcnt].
      destruct Hchk as (_ & _ & Hall). rewrite HbL in Hall. simpl in Hall, Hlen.
      assert (Forall (fun v => 0 <= v <= 10) (board_of (GameState m))) as Hm10.
      { apply Forall_lookup. intros i x Hx.
        destruct (lookup_lt_is_Some_2 bL i) as [y Hy];
          [apply lookup_lt_Some in Hx; lia|].
        rewrite Forall_lookup in HallL. pose proof (HallL i y Hy) as Hy10. simpl in Hy10.
        unfold wf_board in Hwf. rewrite Forall_lookup in Hwf.
        pose proof (Hwf i x Hx) as Hx8. unfold in_uint8 in Hx8.
        destruct (Hall i x y Hx Hy) as [->|(_ & ? & _ & ->)]; simpl; lia. }
      destruct (emptyBoard (board_of (GameState m))) eqn:Hempty.
      * rewrite (Play_empty _ _ Hempty).
        eexists _, _. split; [reflexivity|].
        apply tables_ok_save; try assumption; [|tauto].
        split; [unfold in_int8; simpl; lia|]. split; [unfold in_int8; simpl; lia|].
        exact I.
      * destruct (Play_shape m (default 0 (clientDifficulties tabs !! raddrStr)) Hwf Hempty)
          as (i & v & w & Hi & Hw & Hplay).
        rewrite Hplay. eexists _, _. split; [reflexivity|].
        apply tables_ok_save; try assumption; [|tauto].
        split; [apply int8_range|]. split; [apply int8_range|]. simpl.
        split; [rewrite length_insert; lia|].
        apply Forall_insert; [exact Hm10|].
        rewrite Forall_lookup in Hm10. pose proof (Hm10 i v Hi) as Hv. simpl in Hv. lia.
    + eexists _, _. split; [reflexivity|].
      apply tables_ok_save; try assumption. tauto.
Qed.

Lemma run_keeps_tables (pkts : list (string * option StateMoveMessage)) (tabs : Sessions) :
  tables_ok tabs ->
  Forall (fun p => forall m, p.2 = Some m -> wf_msg m) pkts ->
  exists tabs', run pkts tabs = Ok tabs' /\ tables_ok tabs'.
Proof.
  intros Hok Hpkts. revert tabs Hok.
  induction Hpkts as [|[a pkt] rest Hp _ IH]; intros tabs Hok; simpl.
  - exists tabs. split; [reflexivity | exact Hok].
  - destruct (serve_keeps_tables tabs a pkt Hok Hp) as (tabs1 & reply & Hserve & Hok1).
    rewrite Hserve. apply IH. exact Hok1.
Qed.

(** X13.  Whatever well-typed datagrams arrive, from whatever addresses
    and in whatever order, the server's loop, started from its two empty
    maps, never exits and never panics, and in the tables it reaches
    every stored state has int8 row and amount and either no board (the
    resignation) or a board of 3 to 16 piles with no pile above 10, every
    stored difficulty is 0 or 1, and every client with a stored state has
    a difficulty. *)
Theorem server_tables_invariant (pkts : list (string * option StateMoveMessage)) :
  Forall (fun p => forall m, p.2 = Some m -> wf_msg m) pkts ->
  exists tabs, run pkts no_sessions = Ok tabs /\ tables_ok tabs.
Proof.
  intros Hpkts. apply run_keeps_tables; [|exact Hpkts].
  split; [|split]; simpl.
  - intros a m H. rewrite lookup_empty in H. discriminate.
  - intros a d H. rewrite lookup_empty in H. discriminate.
  - intros a [m H]. rewrite lookup_empty in H. discriminate.
Qed.
End ServerInvariant.

Lemma server_tables_invariant_witness :
  RandSpec counter_rand /\
  Forall (fun p : string * option StateMoveMessage => forall m, p.2 = Some m -> wf_msg m)
         [("c"%string, Some (mkMsg None (-1) 5));
          ("c"%string, Some (mkMsg (Some [7; 8; 9; 10; 1; 2; 3; 3]) 7 1));
          ("d"%string, None)] /\
  exists tabs,
    @run counter_rand
         [("c"%string, Some (mkMsg None (-1) 5));
          ("c"%string, Some (mkMsg (Some [7; 8; 9; 10; 1; 2; 3; 3]) 7 1));
          ("d"%string, None)] no_sessions = Ok tabs /\
    tables_ok tabs.
Proof.
  assert (Forall (fun p : string * option StateMoveMessage =>
                    forall m, p.2 = Some m -> wf_msg m)
                 [("c"%string, Some (mkMsg None (-1) 5));
                  ("c"%string, Some (mkMsg (Some [7; 8; 9; 10; 1; 2; 3; 3]) 7 1));
                  ("d"%string, None)]) as Hpkts.
  { repeat first
      [ apply List.Forall_nil
      | apply List.Forall_cons;
        [simpl; intros m Hm; try discriminate; injection Hm as <-; wf_msg_tac|] ]. }
  split; [exact counter_rand_spec|]. split; [exact Hpkts|].
  exact (@server_tables_invariant counter_rand counter_rand_spec _ Hpkts).
Defined.

(** ** What one datagram can change *)

Section OneDatagram.
Context {R : Rand}.

(** X14.  A datagram changes nothing for any other client: after serve
    for one address the stored state and the difficulty of every other
    address are what they were; and the sender's difficulty changes only
    on a GameStart. *)
Theorem serve_other_sessions (tabs tabs' : Sessions) (raddrStr : string)
        (pkt reply : option StateMoveMessage) :
  serve raddrStr pkt tabs = Ok (tabs', reply) ->
  (forall other, other <> raddrStr ->
     clientGames tabs' !! other = clientGames tabs !! other /\
     clientDifficulties tabs' !! other = clientDifficulties tabs !! other) /\
  ((forall m, pkt = Some m -> isGameStart m = false) ->
   clientDifficulties tabs' = clientDifficulties tabs).
Proof.
  unfold serve. intros Hserve.
  destruct pkt as [m|]; [|injection Hserve as <- <-; split; [now split | reflexivity]].
  destruct (isGameStart m) eqn:Hstart.
  - injection Hserve as <- <-. simpl. split.
    + intros other Hne. now rewrite !lookup_insert_ne by congruence.
    + intros H. specialize (H m eq_refl). congruence.
  - destruct (clientGames tabs !! raddrStr) as [lastMove|];
      [|injection Hserve as <- <-; split; [now split | reflexivity]].
    destruct (CheckMove m lastMove); simpl in Hserve.
    + destruct (Play m (default 0 (clientDifficulties tabs !! raddrStr)));
        try discriminate.
      injection Hserve as <- <-. simpl. split; [|reflexivity].
      intros other Hne. now rewrite lookup_insert_ne by congruence.
    + injection Hserve as <- <-. simpl. split; [|reflexivity].
      intros other Hne. now rewrite lookup_insert_ne by congruence.
Qed.

(** X15.  What the server sends is what it stores: when serve replies,
    the reply is the sender's stored state afterwards; when it does not
    reply, the tables are unchanged, and the datagram was corrupt or was a
    move, not a GameStart, from an address without a session. *)
Theorem serve_reply_is_stored (tabs tabs' : Sessions) (raddrStr : string)
        (pkt reply : option StateMoveMessage) :
  serve raddrStr pkt tabs = Ok (tabs', reply) ->
  match reply with
  | Some r => clientGames tabs' !! raddrStr = Some r /\ pkt <> None
  | None =>
      tabs' = tabs /\
      (pkt = None \/
       exists m, pkt = Some m /\ isGameStart m = false /\
                 clientGames tabs !! raddrStr = None)
  end.
Proof.
  unfold serve. intros Hserve.
  destruct pkt as [m|]; [|injection Hserve as <- <-; split; [reflexivity | now left]].
  destruct (isGameStart m) eqn:Hstart.
  - injection Hserve as <- <-. simpl. split; [apply lookup_insert_eq | discriminate].
  - destruct (clientGames tabs !! raddrStr) as [lastMove|] eqn:Hlast.
    + destruct (CheckMove m lastMove); simpl in Hserve.
      * destruct (Play m (default 0 (clientDifficulties tabs !! raddrStr)));
          try discriminate.
        injection Hserve as <- <-. simpl. split; [apply lookup_insert_eq | discriminate].
      * injection Hserve as <- <-. simpl. split; [apply lookup_insert_eq | discriminate].
    + injection Hserve as <- <-. split; [reflexivity|].
      right. exists m. repeat split; assumption.
Qed.

(** X17.  Started with a seed <= 0, the clients of client.go and
    newClient.go never make a move: the server's reply to their GameStart
    has a board and carries the seed as its amount, and they answer a
    board only when the amount is positive. *)
Theorem simple_clients_need_positive_seed (tabs tabs' : Sessions) (raddrStr : string)
        (seed : Z) (start : StateMoveMessage) :
  serve raddrStr (Some (mkMsg None (-1) seed)) tabs = Ok (tabs', Some start) ->
  seed <= 0 ->
  start = mkMsg (Some (GenerateBoard seed)) (-1) seed /\
  ClientGo.react seed start = Ok ClientGo.Silent /\
  NewClientGo.react seed start = Ok ClientGo.Silent.
Proof.
  unfold serve. simpl. intros Hserve Hseed. injection Hserve as _ <-.
  split; [reflexivity|].
  unfold ClientGo.react, NewClientGo.react. simpl.
  destruct (Z.ltb_spec 0 seed); [lia | now split].
Qed.
End OneDatagram.

Lemma serve_other_sessions_witness :
  @serve counter_rand "c"%string (Some (mkMsg None (-1) 5))
         (mkSessions {[ "d"%string := mkMsg (Some [1; 2; 3]) 0 1 ]} {[ "d"%string := 0 ]}) =
    Ok (mkSessions (<["c"%string := mkMsg (Some (@GenerateBoard counter_rand 5)) (-1) 5]>
                      {[ "d"%string := mkMsg (Some [1; 2; 3]) 0 1 ]})
                   (<["c"%string := Z.land 5 1]> {[ "d"%string := 0 ]}),
        Some (mkMsg (Some (@GenerateBoard counter_rand 5)) (-1) 5)) /\
  "d"%string <> "c"%string /\
  clientGames
    (mkSessions (<["c"%string := mkMsg (Some (@GenerateBoard counter_rand 5)) (-1) 5]>
                   {[ "d"%string := mkMsg (Some [1; 2; 3]) 0 1 ]})
                (<["c"%string := Z.land 5 1]> {[ "d"%string := 0 ]})) !! "d"%string =
  clientGames
    (mkSessions {[ "d"%string := mkMsg (Some [1; 2; 3]) 0 1 ]} {[ "d"%string := 0 ]})
    !! "d"%string.
Proof.
  assert ("d"%string <> "c"%string) as Hne by discriminate.
  assert (@serve counter_rand "c"%string (Some (mkMsg None (-1) 5))
            (mkSessions {[ "d"%string := mkMsg (Some [1; 2; 3]) 0 1 ]} {[ "d"%string := 0 ]}) =
          Ok (mkSessions
                (<["c"%string := mkMsg (Some (@GenerateBoard counter_rand 5)) (-1) 5]>
                   {[ "d"%string := mkMsg (Some [1; 2; 3]) 0 1 ]})
                (<["c"%string := Z.land 5 1]> {[ "d"%string := 0 ]}),
              Some (mkMsg (Some (@GenerateBoard counter_rand 5)) (-1) 5))) as Hserve
    by reflexivity.
  split; [exact Hserve|]. split; [exact Hne|].
  exact (proj1 (proj1 (@serve_other_sessions counter_rand _ _ _ _ _ Hserve)
                  "d"%string Hne)).
Defined.

Lemma serve_reply_is_stored_witness :
  @serve counter_rand "c"%string (Some (mkMsg (Some [1; 2; 3]) 0 1)) no_sessions =
    Ok (no_sessions, None) /\
  no_sessions = no_sessions /\
  (Some (mkMsg (Some [1; 2; 3]) 0 1) = None \/
   exists m, Some (mkMsg (Some [1; 2; 3]) 0 1) = Some m /\ isGameStart m = false /\
             clientGames no_sessions !! "c"%string = None).
Proof.
  assert (@serve counter_rand "c"%string (Some (mkMsg (Some [1; 2; 3]) 0 1)) no_sessions =
          Ok (no_sessions, None)) as Hserve by reflexivity.
  split; [exact Hserve|].
  exact (@serve_reply_is_stored counter_rand _ _ _ _ _ Hserve).
Defined.

Lemma simple_clients_need_positive_seed_witness :
  @serve counter_rand "c"%string (Some (mkMsg None (-1) (-4))) no_sessions =
    Ok (mkSessions (<["c"%string := mkMsg (Some (@GenerateBoard counter_rand (-4))) (-1) (-4)]> ∅)
                   (<["c"%string := Z.land (-4) 1]> ∅),
        Some (mkMsg (Some (@GenerateBoard counter_rand (-4))) (-1) (-4))) /\
  -4 <= 0 /\
  ClientGo.react (-4) (mkMsg (Some (@GenerateBoard counter_rand (-4))) (-1) (-4)) =
    Ok ClientGo.Silent /\
  NewClientGo.react (-4) (mkMsg (Some (@GenerateBoard counter_rand (-4))) (-1) (-4)) =
    Ok ClientGo.Silent.
Proof.
  assert (@serve counter_rand "c"%string (Some (mkMsg None (-1) (-4))) no_sessions =
          Ok (mkSessions
                (<["c"%string := mkMsg (Some (@GenerateBoard counter_rand (-4))) (-1) (-4)]> ∅)
                (<["c"%string := Z.land (-4) 1]> ∅),
              Some (mkMsg (Some (@GenerateBoard counter_rand (-4))) (-1) (-4)))) as Hserve
    by reflexivity.
  split; [exact Hserve|]. split; [lia|].
  exact (proj2 (@simple_clients_need_positive_seed counter_rand _ _ _ _ _ Hserve
                  ltac:(lia))).
Defined.

(** ** The first two clients *)

(** X16.  The clients of client.go and newClient.go never dereference the
    nil move: handed a board with a positive amount, they declare the
    server the winner when the board has no coin, and otherwise send the
    naive move on it (one coin from the first pile that has one), the
    same in both files; the server's CheckMove accepts that move against
    the message they answer when the board has at most 128 piles, none
    above 127. *)
Theorem simple_clients_react (seed : Z) (ServerMove : StateMoveMessage) (board : list Z) :
  GameState ServerMove = Some board -> wf_board board -> 0 < MoveCount ServerMove ->
  (emptyBoard board = true ->
   ClientGo.react seed ServerMove = Ok ClientGo.ServerWins /\
   NewClientGo.react seed ServerMove = Ok ClientGo.ServerWins) /\
  (emptyBoard board = false ->
   exists newMove,
     normalMove board = Some newMove /\
     ClientGo.react seed ServerMove = Ok (ClientGo.Send newMove) /\
     NewClientGo.react seed ServerMove = Ok (ClientGo.Send newMove) /\
     ((length board <= 128)%nat -> Forall (fun v => v < 128) board ->
      CheckMove newMove ServerMove = true)).
Proof.
  intros Hboard Hwf Hcnt.
  assert (ClientGo.nimsum board = emptyBoard board /\
          NewClientGo.allzeros board = emptyBoard board) as (Hnim & Hall).
  { unfold ClientGo.nimsum, NewClientGo.allzeros. cbv zeta.
    rewrite count_zeros_full. now destruct (emptyBoard board). }
  unfold ClientGo.react, NewClientGo.react. rewrite Hboard, Hnim, Hall.
  destruct (Z.ltb_spec 0 (MoveCount ServerMove)) as [_|]; [|lia].
  split.
  - intros Hempty. now rewrite Hempty.
  - intros Hne. rewrite Hne.
    destruct (normalMove_found board Hwf Hne) as (i & v & Hi & Hpos & _ & Hmove).
    eexists. split; [exact Hmove|].
    unfold ClientGo.play, NewClientGo.play. rewrite Hboard. simpl.
    change (ClientGo.normalmove board) with (normalMove board).
    change (NewClientGo.normal board) with (normalMove board).
    rewrite Hmove. split; [reflexivity|]. split; [reflexivity|].
    intros Hlen Hsmall.
    pose proof (lookup_lt_Some _ _ _ Hi) as Hidx.
    rewrite Forall_lookup in Hsmall. pose proof (Hsmall i v Hi) as Hv. simpl in Hv.
    rewrite int8_small by lia.
    replace 1 with (v - (v - 1)) at 2 by lia.
    apply CheckMove_single_pile with (board := board); try assumption; [|lia].
    now rewrite Hboard.
Qed.

Lemma simple_clients_react_witness :
  GameState (mkMsg (Some [0; 4; 1; 5]) 1 5) = Some [0; 4; 1; 5] /\
  wf_board [0; 4; 1; 5] /\ 0 < MoveCount (mkMsg (Some [0; 4; 1; 5]) 1 5) /\
  emptyBoard [0; 4; 1; 5] = false /\
  exists newMove,
    normalMove [0; 4; 1; 5] = Some newMove /\
    ClientGo.react 7 (mkMsg (Some [0; 4; 1; 5]) 1 5) = Ok (ClientGo.Send newMove) /\
    NewClientGo.react 7 (mkMsg (Some [0; 4; 1; 5]) 1 5) = Ok (ClientGo.Send newMove) /\
    (le (length [0; 4; 1; 5]) 128 -> Forall (fun v => v < 128) [0; 4; 1; 5] ->
     CheckMove newMove (mkMsg (Some [0; 4; 1; 5]) 1 5) = true).
Proof.
  assert (wf_board [0; 4; 1; 5]) as Hwf by wf_board_tac.
  split; [reflexivity|]. split; [exact Hwf|]. split; [simpl; lia|].
  split; [reflexivity|].
  apply (proj2 (simple_clients_react 7 (mkMsg (Some [0; 4; 1; 5]) 1 5) [0; 4; 1; 5]
                  eq_refl Hwf ltac:(simpl; lia))).
  reflexivity.
Defined.

(** ** A new game *)

Section NewGame.
Context {R : Rand} {HR : RandSpec R}.

Lemma GenerateBoard_wf (seed : Z) : wf_board (GenerateBoard seed).
Proof. apply game_board_wf, GenerateBoard_game_board. Qed.

Lemma GenerateBoard_small (seed : Z) :
  (length (GenerateBoard seed) <= 128)%nat /\ Forall (fun v => v < 128) (GenerateBoard seed).
Proof.
  destruct (GenerateBoard_drawn seed) as (Hlen & Hall & _). split; [lia|].
  eapply Forall_impl; [exact Hall|]. intros v Hv. simpl in Hv. lia.
Qed.

(** X18.  The opening of a game, for every seed and whatever the tables
    hold.  The server answers the GameStart with the generated board,
    row -1 and the seed, and sets the difficulty to seed & 1.  The retry
    client's first move on that board leaves nim-sum 0 and is accepted:
    the server stores and sends Play's counter-move under that
    difficulty, not the start message again.  The client adopts the
    counter-move, and the position it then holds has a nonzero nim-sum
    again. *)
Theorem opening_exchange (tabs : Sessions) (raddrStr : string) (seed : Z) :
  exists tabs1 sendMove state' tabs2 reply state'',
    serve raddrStr (Some (mkMsg None (-1) seed)) tabs =
      Ok (tabs1, Some (mkMsg (Some (GenerateBoard seed)) (-1) seed)) /\
    clientDifficulties tabs1 !! raddrStr = Some (Z.land seed 1) /\
    Client.turn (GenerateBoard seed) = Ok (sendMove, state') /\
    nimSum state' = 0 /\
    Play sendMove (Z.land seed 1) = Ok reply /\
    serve raddrStr (Some sendMove) tabs1 = Ok (tabs2, Some reply) /\
    clientGames tabs2 !! raddrStr = Some reply /\
    Client.exchange state' (Some reply) = Ok (Client.Adopted state'') /\
    GameState reply = Some state'' /\
    nimSum state'' <> 0.
Proof.
  destruct (GenerateBoard_drawn seed) as (Hlen & Hpiles & Hnz).
  destruct (GenerateBoard_small seed) as (Hlen128 & Hsmall).
  pose proof (GenerateBoard_wf seed) as Hwf.
  set (start := mkMsg (Some (GenerateBoard seed)) (-1) seed).
  destruct (client_round_steps (GenerateBoard seed) start (Z.land seed 1)
              Hwf Hlen128 Hsmall Hnz eq_refl)
    as (sendMove & state' & Hturn & Hsent & Hchk & Hzero & _ & _ & Hgoes).
  assert (Client.isWinState state' = false) as Hnot.
  { rewrite isWinState_emptyBoard.
    destruct (emptyBoard state') eqn:Hempty; [exfalso | reflexivity].
    apply emptyBoard_true in Hempty. rewrite Forall_lookup in Hempty.
    pose proof Hchk as Hspec.
    apply CheckMove_true in Hspec. destruct Hspec as (Hl & _ & Hrows).
    rewrite Hsent in Hl, Hrows. simpl in Hl, Hrows.
    assert (exists j, (j < 2)%nat /\ Z.of_nat j <> MoveRow sendMove) as (j & Hj & Hrow).
    { destruct (Z.eq_dec 0 (MoveRow sendMove)); [exists 1%nat | exists 0%nat]; split; lia. }
    destruct (lookup_lt_is_Some_2 state' j ltac:(lia)) as [x Hx].
    destruct (lookup_lt_is_Some_2 (GenerateBoard seed) j ltac:(lia)) as [y Hy].
    pose proof (Hrows j ltac:(lia)) as Hok. unfold row_ok in Hok.
    rewrite (lookup_total_of_lookup _ _ _ Hx), (lookup_total_of_lookup _ _ _ Hy) in Hok.
    rewrite Forall_lookup in Hpiles. pose proof (Hpiles j y Hy) as Hy1. simpl in Hy1.
    pose proof (Hempty j x Hx) as Hx0. simpl in Hx0. subst x.
    destruct (Z.eqb_spec 0 y); [lia|].
    destruct (Z.eqb_spec (Z.of_nat j) (MoveRow sendMove)); [contradiction|].
    simpl in Hok. discriminate. }
  destruct (Hgoes Hnot) as (reply & state'' & Hplay & Hexch & Hreply & Hnz'' & _).
  set (tabs1 := mkSessions (<[raddrStr := start]> (clientGames tabs))
                           (<[raddrStr := Z.land seed 1]> (clientDifficulties tabs))).
  assert (clientGames tabs1 !! raddrStr = Some start) as Hstored
    by (simpl; apply lookup_insert_eq).
  assert (clientDifficulties tabs1 !! raddrStr = Some (Z.land seed 1)) as Hdiff
    by (simpl; apply lookup_insert_eq).
  exists tabs1, sendMove, state'.
  exists (mkSessions (<[raddrStr := reply]> (clientGames tabs1)) (clientDifficulties tabs1)).
  exists reply, state''.
  split; [reflexivity|]. split; [exact Hdiff|]. split; [exact Hturn|].
  split; [exact Hzero|]. split; [exact Hplay|]. split.
  { apply (serve_valid tabs1 raddrStr sendMove start reply Hstored Hchk).
    rewrite Hdiff. exact Hplay. }
  split; [simpl; apply lookup_insert_eq|].
  split; [exact Hexch|]. split; [exact Hreply | exact Hnz''].
Qed.

(** ** The server's tests, for every seed *)

(** X19.  What TestNormalMove checks on the boards of 15 seeds holds for
    every seed: on a generated board normalMove does not fail, takes
    exactly one coin from pile 0, leaves the other piles, and reports row
    0 and amount 1. *)
Theorem TestNormalMove_every_seed (seed : Z) :
  exists prev0 rest st,
    GenerateBoard seed = prev0 :: rest /\
    normalMove (GenerateBoard seed) = Some st /\
    GameState st = Some (prev0 - 1 :: rest) /\
    MoveRow st = 0 /\ MoveCount st = 1.
Proof.
  destruct (GenerateBoard_drawn seed) as (Hlen & Hpiles & _).
  destruct (GenerateBoard seed) as [|prev0 rest]; [simpl in Hlen; lia|].
  apply Forall_cons in Hpiles. destruct Hpiles as (H0 & _).
  exists prev0, rest. eexists. split; [reflexivity|].
  unfold normalMove. simpl.
  destruct (decide (0 < prev0)) as [_|]; [|lia]. simpl.
  split; [reflexivity|]. simpl.
  rewrite uint8_small by (unfold in_uint8; lia). repeat split.
Qed.

(** X20.  What TestBestMove checks holds for every seed: on a generated
    board bestMove returns a move whose board has nim-sum 0; and, as in
    TestEmptyBoard, a generated board is never empty while a board of
    zeros always is. *)
Theorem TestBestMove_every_seed (seed : Z) (rows : nat) :
  (exists st,
     bestMove (GenerateBoard seed) = Ok st /\
     nimSum (board_of (GameState st)) = 0) /\
  emptyBoard (GenerateBoard seed) = false /\
  emptyBoard (replicate rows 0) = true.
Proof.
  destruct (GenerateBoard_drawn seed) as (_ & _ & Hnz).
  pose proof (GenerateBoard_wf seed) as Hwf.
  split; [|split].
  - destruct (bestMove_found _ Hwf Hnz) as (i & v & Hi & _ & _ & Hbest).
    eexists. split; [exact Hbest|]. simpl.
    rewrite (nimSum_insert _ i v _ Hi). xor_bits.
  - now apply nimSum_nonzero_coin.
  - induction rows as [|n IH]; simpl; [reflexivity | exact IH].
Qed.
End NewGame.

Lemma opening_exchange_witness :
  RandSpec counter_rand /\
  exists tabs1 sendMove state' tabs2 reply state'',
    @serve counter_rand "c"%string (Some (mkMsg None (-1) 5)) no_sessions =
      Ok (tabs1, Some (mkMsg (Some (@GenerateBoard counter_rand 5)) (-1) 5)) /\
    clientDifficulties tabs1 !! "c"%string = Some (Z.land 5 1) /\
    Client.turn (@GenerateBoard counter_rand 5) = Ok (sendMove, state') /\
    nimSum state' = 0 /\
    Play sendMove (Z.land 5 1) = Ok reply /\
    @serve counter_rand "c"%string (Some sendMove) tabs1 = Ok (tabs2, Some reply) /\
    clientGames tabs2 !! "c"%string = Some reply /\
    Client.exchange state' (Some reply) = Ok (Client.Adopted state'') /\
    GameState reply = Some state'' /\
    nimSum state'' <> 0.
Proof.
  split; [exact counter_rand_spec|].
  exact (@opening_exchange counter_rand counter_rand_spec no_sessions "c"%string 5).
Defined.

Lemma TestNormalMove_every_seed_witness :
  RandSpec counter_rand /\
  exists prev0 rest st,
    @GenerateBoard counter_rand 5 = prev0 :: rest /\
    normalMove (@GenerateBoard counter_rand 5) = Some st /\
    GameState st = Some (prev0 - 1 :: rest) /\
    MoveRow st = 0 /\ MoveCount st = 1.
Proof.
  split; [exact counter_rand_spec|].
  exact (@TestNormalMove_every_seed counter_rand counter_rand_spec 5).
Defined.

Lemma TestBestMove_every_seed_witness :
  RandSpec counter_rand /\
  (exists st,
     bestMove (@GenerateBoard counter_rand 5) = Ok st /\
     nimSum (board_of (GameState st)) = 0) /\
  emptyBoard (@GenerateBoard counter_rand 5) = false /\
  emptyBoard (replicate 4 0) = true.
Proof.
  split; [exact counter_rand_spec|].
  exact (@TestBestMove_every_seed counter_rand counter_rand_spec 5 4).
Defined.

(** ** What the client's check lets through *)

(** X21.  isValidSuccessor checks less than CheckMove.  It accepts a
    reply that raises a pile by declaring a negative amount, which
    CheckMove rejects; and it accepts a reply that repeats the client's
    own state when the declared row is outside the board. *)
Theorem isValidSuccessor_weaker (state : list Z) (previous : StateMoveMessage) :
  wf_board state -> board_of (GameState previous) = state ->
  (forall i v k,
     state !! i = Some v -> (i < 128)%nat -> 0 < k <= 128 -> v + k < 256 ->
     Client.isValidSuccessor state
       (mkMsg (Some (<[i := v + k]> state)) (Z.of_nat i) (- k)) = Ok true /\
     CheckMove (mkMsg (Some (<[i := v + k]> state)) (Z.of_nat i) (- k)) previous = false) /\
  (forall row count,
     ~ (0 <= row < Z.of_nat (length state)) ->
     Client.isValidSuccessor state (mkMsg (Some state) row count) = Ok true).
Proof.
  intros Hwf Hprev. split.
  - intros i v k Hi Hsmall Hk Hsum.
    assert (in_uint8 v) as Hv.
    { unfold wf_board in Hwf. rewrite Forall_lookup in Hwf. exact (Hwf i v Hi). }
    pose proof (lookup_lt_Some _ _ _ Hi) as Hidx.
    split.
    + unfold Client.isValidSuccessor.
      apply successor_from_all_ok; simpl; [rewrite length_insert; lia|].
      intros j elm g He Hg. unfold pile_passes. simpl.
      destruct (Z.eqb_spec (Z.of_nat j) (Z.of_nat i)) as [Hji|Hji].
      * apply Nat2Z.inj in Hji. subst j.
        rewrite Hi in He. injection He as <-.
        rewrite list_lookup_insert_eq in Hg by exact Hidx. injection Hg as <-.
        apply Z.eqb_eq. unfold uint8, in_uint8 in *.
        replace (- k) with (256 - k + (-1) * 256) by lia.
        rewrite Z_mod_plus_full, (Z.mod_small (256 - k)) by lia.
        replace (v - (256 - k)) with (v + k + (-1) * 256) by lia.
        rewrite Z_mod_plus_full. apply Z.mod_small. lia.
      * rewrite list_lookup_insert_ne in Hg by (intros ->; now apply Hji).
        apply Z.eqb_eq. congruence.
    + apply CheckMove_rejects_nonpositive; simpl.
      * now rewrite Hprev.
      * unfold in_int8. lia.
      * rewrite Hprev. intros Heq.
        apply (f_equal (fun l => l !! i)) in Heq.
        rewrite list_lookup_insert_eq, Hi in Heq by exact Hidx.
        injection Heq as Heq. lia.
      * lia.
  - intros row count Hrow. unfold Client.isValidSuccessor.
    apply successor_from_all_ok; simpl; [lia|].
    intros j elm g He Hg. unfold pile_passes. simpl.
    pose proof (lookup_lt_Some _ _ _ He) as Hj.
    destruct (Z.eqb_spec (Z.of_nat j) row) as [Heq|_]; [exfalso; apply Hrow; lia|].
    apply Z.eqb_eq. congruence.
Qed.

Lemma isValidSuccessor_weaker_witness :
  wf_board [1; 5; 1; 5] /\
  board_of (GameState (mkMsg (Some [1; 5; 1; 5]) 1 4)) = [1; 5; 1; 5] /\
  Client.isValidSuccessor [1; 5; 1; 5]
    (mkMsg (Some (<[1%nat := 5 + 4]> [1; 5; 1; 5])) (Z.of_nat 1) (- 4)) = Ok true /\
  CheckMove (mkMsg (Some (<[1%nat := 5 + 4]> [1; 5; 1; 5])) (Z.of_nat 1) (- 4))
            (mkMsg (Some [1; 5; 1; 5]) 1 4) = false.
Proof.
  assert (wf_board [1; 5; 1; 5]) as Hwf by wf_board_tac.
  split; [exact Hwf|]. split; [reflexivity|].
  apply (proj1 (isValidSuccessor_weaker [1; 5; 1; 5] (mkMsg (Some [1; 5; 1; 5]) 1 4)
                  Hwf eq_refl) 1%nat 5 4); [reflexivity | lia | lia | lia].
Defined.

(** ** After the resignation *)

Section Retries.
Context {R : Rand}.

(** X23.  Once the resignation is the stored state, only a GameStart
    moves the session: every other decodable datagram from that address
    is answered with the resignation and changes nothing. *)
Theorem resigned_session_stays (tabs : Sessions) (raddrStr : string) (m : StateMoveMessage) :
  clientGames tabs !! raddrStr = Some (mkMsg None (-2) (-2)) ->
  isGameStart m = false ->
  serve raddrStr (Some m) tabs = Ok (tabs, Some (mkMsg None (-2) (-2))).
Proof.
  intros Hstored Hstart. apply serve_invalid; [exact Hstored | exact Hstart |].
  destruct (CheckMove m (mkMsg None (-2) (-2))) eqn:Hchk; [exfalso | reflexivity].
  apply CheckMove_true in Hchk. simpl in Hchk. destruct Hchk as (Hlen & Hrow & _). lia.
Qed.
End Retries.

Lemma resigned_session_stays_witness :
  clientGames (mkSessions {[ "c"%string := mkMsg None (-2) (-2) ]} {[ "c"%string := 1 ]})
    !! "c"%string = Some (mkMsg None (-2) (-2)) /\
  isGameStart (mkMsg (Some [0; 0; 0]) 0 1) = false /\
  @serve counter_rand "c"%string (Some (mkMsg (Some [0; 0; 0]) 0 1))
         (mkSessions {[ "c"%string := mkMsg None (-2) (-2) ]} {[ "c"%string := 1 ]}) =
    Ok (mkSessions {[ "c"%string := mkMsg None (-2) (-2) ]} {[ "c"%string := 1 ]},
        Some (mkMsg None (-2) (-2))).
Proof.
  assert (clientGames
            (mkSessions {[ "c"%string := mkMsg None (-2) (-2) ]} {[ "c"%string := 1 ]})
            !! "c"%string = Some (mkMsg None (-2) (-2))) as Hst
    by apply lookup_singleton_eq.
  split; [exact Hst|]. split; [reflexivity|].
  exact (@resigned_session_stays counter_rand _ _ (mkMsg (Some [0; 0; 0]) 0 1) Hst eq_refl).
Defined.
